(** * pharynx_redox.image_processing: pose normalisation, midlines, sampling

    A shallow embedding of [src/pharynx_redox/image_processing.py] and the
    properties of its pipeline: segmentation threshold search, pose
    normalisation, polynomial midline fitting, sampling under a midline and
    profile normalisation.

    Conventions of the embedding:
    - a numpy [float64] is an IEEE 754 binary64 value ([spec_float] with
      precision 53 and maximal exponent 1024); arithmetic and comparisons are
      the ones of [SpecFloat], so NaN and the infinities behave as in numpy;
    - a Python exception is a value of [exn]; a call that may raise returns an
      [outcome]; [try ... except] is a [match] on the outcome;
    - a binary mask is a list of rows of booleans, an image a list of rows of
      floats; a labelled xarray stack is its coordinates and a function from
      labels to frames;
    - the numeric routines of numpy, scipy and scikit-image whose values the
      properties do not depend on (least squares, trigonometry, interpolation,
      the normal density, image moments and warping) are the fields of the
      class [Numerics]. *)

From Stdlib Require Import ZArith List Bool String Ascii Lia.
From Stdlib Require Import Floats.SpecFloat.
From stdpp Require Import base list strings.

Import ListNotations.
Local Open Scope Z_scope.

(** ** Floats *)

Module Float64.

Definition float := spec_float.

Definition prec : Z := 53.
Definition emax : Z := 1024.

Definition add : float -> float -> float := SFadd prec emax.
Definition sub : float -> float -> float := SFsub prec emax.
Definition mul : float -> float -> float := SFmul prec emax.
Definition div : float -> float -> float := SFdiv prec emax.
Definition neg : float -> float := SFopp.

Definition eqb : float -> float -> bool := SFeqb.
Definition ltb : float -> float -> bool := SFltb.
Definition leb : float -> float -> bool := SFleb.

  (** Python [a > b] and [a >= b] *)
Definition gtb (a b : float) : bool := ltb b a.
Definition geb (a b : float) : bool := leb b a.

Definition is_nan (x : float) : bool :=
    match x with S754_nan => true | _ => false end.

Definition zero : float := S754_zero false.

  (** The float nearest to an integer, Python [float(z)] *)
Definition of_Z (z : Z) : float := binary_normalize prec emax z 0 false.

  (** The float nearest to the fraction [n / d]: what the decimal literals of
      the source denote ([0.15] is [ratio 15 100]) *)
Definition ratio (n d : Z) : float := div (of_Z n) (of_Z d).

  (** Truncation toward zero of a finite float *)
Definition trunc (x : float) : option Z :=
    match x with
    | S754_zero _ => Some 0
    | S754_finite s m e =>
        let a := if 0 <=? e then Z.shiftl (Zpos m) e
                 else Z.shiftr (Zpos m) (- e) in
        Some (if s then - a else a)
    | _ => None
    end.

End Float64.

Abbreviation float := Float64.float.

(** ** Exceptions *)

Inductive exn : Type :=
| IndexError
| ValueError
| TypeError
| AttributeError
| KeyError
| ZeroDivisionError
| OverflowError
(** [numpy.linalg.LinAlgError] *)
| LinAlgError
(** [ValueError("No binary objects found in image @ [idx=..; wvl=..; pair=..]")] *)
| NoBinaryObjects (idx : nat) (wvl : string) (pr : Z).

Inductive outcome (A : Type) : Type :=
| Ret (a : A)
| Raise (e : exn).

Arguments Ret {A} a.
Arguments Raise {A} e.

Definition obind {A B : Type} (m : outcome A) (k : A -> outcome B) : outcome B :=
  match m with
  | Ret a => k a
  | Raise e => Raise e
  end.

Notation "'let!' x ':=' c1 'in' c2" := (obind c1 (fun x => c2))
  (at level 10, x pattern, c1 at level 100, c2 at level 200).

(** [try: c except: h] runs [h] on every exception of [c] (a bare [except:]) *)
Definition try_except {A : Type} (c : outcome A) (h : outcome A) : outcome A :=
  match c with
  | Ret a => Ret a
  | Raise _ => h
  end.

(** [try: c except E: h] runs [h] on the exception [E] only *)
Definition exn_eqb (a b : exn) : bool :=
  match a, b with
  | IndexError, IndexError | ValueError, ValueError | TypeError, TypeError
  | AttributeError, AttributeError | KeyError, KeyError
  | ZeroDivisionError, ZeroDivisionError | OverflowError, OverflowError
  | LinAlgError, LinAlgError => true
  | NoBinaryObjects i w p, NoBinaryObjects i' w' p' =>
      (Nat.eqb i i' && String.eqb w w' && (p =? p'))%bool
  | _, _ => false
  end.

Definition try_except_only {A : Type} (E : exn) (c : outcome A) (h : outcome A)
  : outcome A :=
  match c with
  | Ret a => Ret a
  | Raise e => if exn_eqb e E then h else Raise e
  end.

Definition raises {A : Type} (c : outcome A) : Prop := exists e, c = Raise e.

(** The exceptions of class [ValueError]: the plain one that numpy and
    scikit-image raise, and the one with the message of
    [center_and_rotate_pharynxes] *)
Definition is_ValueError (e : exn) : Prop :=
  e = ValueError \/ exists idx wvl pr, e = NoBinaryObjects idx wvl pr.

(** A Python number: [int] or [float] *)
Inductive pynum : Type :=
| PyInt (z : Z)
| PyFloat (f : float).

Definition pynum_to_float (x : pynum) : float :=
  match x with
  | PyInt z => Float64.of_Z z
  | PyFloat f => f
  end.

(** [x == 0] *)
Definition pynum_is_zero (x : pynum) : bool :=
  match x with
  | PyInt z => z =? 0
  | PyFloat f => Float64.eqb f Float64.zero
  end.

(** [operator.index(x)], as [np.linspace] applies it to [num] *)
Definition operator_index (x : pynum) : outcome Z :=
  match x with
  | PyInt z => Ret z
  | PyFloat _ => Raise TypeError
  end.

(** [int(x)] *)
Definition py_int (x : float) : outcome Z :=
  match x with
  | S754_nan => Raise ValueError
  | S754_infinity _ => Raise OverflowError
  | _ => match Float64.trunc x with Some z => Ret z | None => Raise ValueError end
  end.

(** ** Masks, images and connected components *)

Definition mask := list (list bool).
Definition image := list (list float).

Definition pixel (m : mask) (r c : nat) : bool :=
  nth c (nth r m []) false.

(** The foreground pixels [(row, col)] in raster order *)
Definition row_foreground (r : nat) (row : list bool) : list (nat * nat) :=
  map (fun c => (r, c)) (List.filter (fun c => nth c row false) (seq 0 (length row))).

Definition foreground (m : mask) : list (nat * nat) :=
  concat (imap row_foreground m).

Definition near (a b : nat) : bool :=
  (Nat.leb a (S b) && Nat.leb b (S a))%bool.

(** Neighbours in the sense of [measure.label]'s default (full) connectivity:
    the eight pixels around a pixel of a 2-D image *)
Definition adjacent (p q : nat * nat) : bool :=
  (near (fst p) (fst q) && near (snd p) (snd q))%bool.

Definition touches (comp : list (nat * nat)) (q : nat * nat) : bool :=
  existsb (fun p => adjacent p q) comp.

(** One round of flood fill: the pixels of [rest] that touch [comp] join it *)
Definition grow (comp rest : list (nat * nat)) : list (nat * nat) * list (nat * nat) :=
  (comp ++ List.filter (touches comp) rest,
   List.filter (fun q => negb (touches comp q)) rest).

Fixpoint flood (fuel : nat) (comp rest : list (nat * nat)) : list (nat * nat) :=
  match fuel with
  | O => comp
  | S k => let '(comp', rest') := grow comp rest in flood k comp' rest'
  end.

Definition pix_eqb (p q : nat * nat) : bool :=
  (Nat.eqb (fst p) (fst q) && Nat.eqb (snd p) (snd q))%bool.

(** A region of [measure.regionprops]: the pixels of one label, in raster
    order as [coords] has them *)
Record region : Type := {
  coords : list (nat * nat)
}.

Definition list_min (d : nat) (l : list nat) : nat := fold_right Nat.min d l.
Definition list_max (l : list nat) : nat := fold_right Nat.max 0%nat l.

(** [bbox] is [(min_row, min_col, max_row, max_col)], rows and columns in the
    half-open intervals [min_row, max_row) and [min_col, max_col) *)
Definition bbox (rp : region) : Z * Z * Z * Z :=
  let rows := map fst (coords rp) in
  let cols := map snd (coords rp) in
  (Z.of_nat (list_min (hd 0%nat rows) rows),
   Z.of_nat (list_min (hd 0%nat cols) cols),
   Z.of_nat (S (list_max rows)),
   Z.of_nat (S (list_max cols))).

Definition area (rp : region) : Z := Z.of_nat (length (coords rp)).

(** [measure.regionprops(measure.label(img))]: label 1 is the component of
    the first foreground pixel in raster order, and the regions come sorted by
    label.  Only the first region is ever used by the source. *)
Definition first_region (m : mask) : option region :=
  match foreground m with
  | [] => None
  | p :: rest =>
      let comp := flood (length rest) [p] rest in
      Some {| coords := List.filter (fun q => existsb (pix_eqb q) comp) (p :: rest) |}
  end.

(** [measure.regionprops(measure.label(img))[0]].  For an array without a
    single pixel [regionprops] itself raises [ValueError], from the maximum of
    an empty array of labels; for an array with pixels and no object the list
    of regions is empty and the subscript raises [IndexError]. *)
Definition regionprops_0 (m : mask) : outcome region :=
  match concat m with
  | [] => Raise ValueError
  | _ :: _ =>
      match first_region m with
      | Some rp => Ret rp
      | None => Raise IndexError
      end
  end.

(** [get_area_of_largest_object]: the area of the first region, 0 for the
    [IndexError] of a mask without object; no other exception is caught *)
Definition get_area_of_largest_object (S : mask) : outcome Z :=
  try_except_only IndexError
    (let! rp := regionprops_0 S in Ret (area rp)) (Ret 0).

(** ** The numeric libraries *)

Class Numerics : Type := {
  (** the least-squares coefficients [Polynomial.fit] computes for the points
      [xs], [ys], a degree and a domain *)
  lstsq_fit : list float -> list float -> Z -> float * float -> list float;
  np_arctan : float -> float;
  np_cos : float -> float;
  np_sin : float -> float;
  np_pi : float;
  np_degrees : float -> float;
  (** [ndi.map_coordinates] at one coordinate pair, for a spline order *)
  interpolate : Z -> image -> float -> float -> float;
  (** [norm.pdf(x, scale=s)] *)
  norm_pdf : float -> float -> float;
  (** [regionprops(...).orientation] *)
  orientation : region -> float;
  (** [transform.warp(img, tform, preserve_range=True, mode="wrap", order)]
      for a translation, and [transform.rotate(img, angle, mode="edge", order)] *)
  transform_warp : forall A : Type, list (list A) -> float * float -> Z -> list (list A);
  transform_rotate : forall A : Type, list (list A) -> float -> Z -> list (list A)
}.

Arguments transform_warp {_ A} _ _ _.
Arguments transform_rotate {_ A} _ _ _.

(** ** numpy.polynomial.Polynomial *)

Record Polynomial : Type := {
  coef : list float;
  domain : float * float;
  window : float * float
}.

Definition default_window : float * float :=
  (Float64.of_Z (-1), Float64.of_Z 1).

(** [pu.mapparms(old, new)]: offset and scale of the map from [old] to [new] *)
Definition mapparms (old new : float * float) : float * float :=
  let oldlen := Float64.sub (snd old) (fst old) in
  let newlen := Float64.sub (snd new) (fst new) in
  (Float64.div (Float64.sub (Float64.mul (snd old) (fst new))
                            (Float64.mul (fst old) (snd new))) oldlen,
   Float64.div newlen oldlen).

(** [polyval(x, c)], Horner's scheme from the last coefficient *)
Definition polyval (x : float) (c : list float) : float :=
  match rev c with
  | [] => Float64.zero
  | cn :: lower =>
      fold_left (fun c0 ci => Float64.add ci (Float64.mul c0 x)) lower
                (Float64.add cn (Float64.mul x Float64.zero))
  end.

(** [p(x)] *)
Definition poly_call (p : Polynomial) (x : float) : float :=
  let '(off, scl) := mapparms (domain p) (window p) in
  polyval (Float64.add off (Float64.mul scl x)) (coef p).

(** [polyder(c, 1, scl)] *)
Definition polyder (c : list float) (scl : float) : list float :=
  match c with
  | [] | [_] => [Float64.mul (hd Float64.zero c) Float64.zero]
  | _ :: higher =>
      imap (fun j cj => Float64.mul (Float64.of_Z (Z.of_nat (S j)))
                                    (Float64.mul cj scl)) higher
  end.

(** [p.deriv()] *)
Definition poly_deriv (p : Polynomial) : Polynomial :=
  let '(_, scl) := mapparms (domain p) (window p) in
  {| coef := polyder (coef p) scl; domain := domain p; window := window p |}.

(** [np.linspace(start, stop, num)] for arrays [start] and [stop] of one
    length: [num] rows, row [i] holding [start + i * step] *)
Definition linspace_row (start stop : list float) (div : Z) (any_step_zero : bool)
    (i : Z) : list float :=
  zip_with (fun a b =>
    let delta := Float64.sub b a in
    let y :=
      if 0 <? div then
        if any_step_zero
        then Float64.mul (Float64.div (Float64.of_Z i) (Float64.of_Z div)) delta
        else Float64.mul (Float64.of_Z i) (Float64.div delta (Float64.of_Z div))
      else Float64.mul (Float64.of_Z i) delta in
    Float64.add y a) start stop.

Definition np_linspace (start stop : list float) (num : pynum)
  : outcome (list (list float)) :=
  let! n := operator_index num in
  if n <? 0 then Raise ValueError
  else
    let div := n - 1 in
    let any_step_zero :=
      existsb (fun s => Float64.eqb s Float64.zero)
              (zip_with (fun a b => Float64.div (Float64.sub b a) (Float64.of_Z div))
                        start stop) in
    let rows := map (fun i => linspace_row start stop div any_step_zero (Z.of_nat i))
                    (seq 0 (Z.to_nat n)) in
    Ret (if 1 <? n then <[Z.to_nat (n - 1) := stop]> rows else rows).

(** [np.linspace] for scalar [start] and [stop] *)
Definition np_linspace1 (start stop : float) (num : pynum) : outcome (list float) :=
  let! rows := np_linspace [start] [stop] num in
  Ret (map (hd Float64.zero) rows).

(** [p.linspace(n)]: [n] abscissae over the domain and the values there *)
Definition poly_linspace (p : Polynomial) (n : pynum)
  : outcome (list float * list float) :=
  let! xs := np_linspace1 (fst (domain p)) (snd (domain p)) n in
  Ret (xs, map (poly_call p) xs).

(** [Polynomial.fit(xs, ys, deg, domain=[lo, hi])] for the two integers [lo]
    and [hi].  A negative degree is refused with [ValueError].  Over a domain
    of length zero the map onto the window divides by zero, the abscissae all
    become NaN, and the least-squares solver raises [LinAlgError]. *)
Definition Polynomial_fit `{Numerics} (xs ys : list float) (deg : Z)
    (lo hi : Z) : outcome Polynomial :=
  let dom := (Float64.of_Z lo, Float64.of_Z hi) in
  if deg <? 0 then Raise ValueError
  else if lo =? hi then Raise LinAlgError
  else Ret {| coef := lstsq_fit xs ys deg dom;
              domain := dom;
              window := default_window |}.

(** ** calculate_midline *)

(** [except IndexError] catches the missing object only: the [ValueError] of
    a mask without a pixel or of a negative degree and the [LinAlgError] of a
    domain of length zero go to the caller *)
Definition calculate_midline `{Numerics} (rot_seg_img : mask) (degree : Z) (pad : Z)
  : outcome (option Polynomial) :=
  try_except_only IndexError
    (let! rp := regionprops_0 rot_seg_img in
     let xs := map (fun p => Float64.of_Z (Z.of_nat (snd p))) (coords rp) in
     let ys := map (fun p => Float64.of_Z (Z.of_nat (fst p))) (coords rp) in
     let '(left_bound, _, _, right_bound) := bbox rp in
     let! p := Polynomial_fit xs ys degree (left_bound - pad) (right_bound + pad) in
     Ret (Some p))
    (Ret None).

(** [get_lr_bounds] for one frame: the sibling that reads the same [bbox] *)
Definition get_lr_bounds_frame (img : mask) (pad : Z) : outcome (Z * Z) :=
  let! rp := regionprops_0 img in
  let '(_, l, _, r) := bbox rp in
  Ret (l - pad, r + pad - 1).

(** ** measure_under_midline *)

(** A numpy array of floats with one or two axes *)
Inductive ndarray : Type :=
| Arr1 (v : list float)
| Arr2 (rows : list (list float)).

Definition shape (a : ndarray) : list nat :=
  match a with
  | Arr1 v => [length v]
  | Arr2 rows => [length rows; length (hd [] rows)]
  end.

(** The number of elements, [a.size] *)
Definition size (a : ndarray) : nat :=
  match a with
  | Arr1 v => length v
  | Arr2 rows => length (concat rows)
  end.

(** [np.zeros((1, n))] *)
Definition np_zeros_row (n : Z) : outcome ndarray :=
  if n <? 0 then Raise ValueError
  else Ret (Arr2 [repeat Float64.zero (Z.to_nat n)]).

(** The end points of the normal segments: segment [i] runs from
    [(xs0[i], ys0[i])] to [(xs1[i], ys1[i])] *)
Record segments : Type := {
  xs0 : list float;
  xs1 : list float;
  ys0 : list float;
  ys1 : list float
}.

(** [l[i]] *)
Definition item (l : list float) (i : nat) : float := default Float64.zero (l !! i).

(** The body of the [if y0 < y1] in the loop: both coordinates of the two end
    points of segment [i] change places *)
Definition swap_at (s : segments) (i : nat) : segments :=
  let tx := item (xs0 s) i in
  let xs0' := <[i := item (xs1 s) i]> (xs0 s) in
  let xs1' := <[i := tx]> (xs1 s) in
  let ty := item (ys0 s) i in
  let ys0' := <[i := item (ys1 s) i]> (ys0 s) in
  let ys1' := <[i := ty]> (ys1 s) in
  {| xs0 := xs0'; xs1 := xs1'; ys0 := ys0'; ys1 := ys1' |}.

(** One turn of the loop at index [i]: [y0] and [y1] are items [i] of [ys0]
    and [ys1] *)
Definition swap_body (s : segments) (i : nat) : segments :=
  if Float64.ltb (item (ys0 s) i) (item (ys1 s) i) then swap_at s i else s.

(** [for y0, y1, x0, x1, i in zip(ys0, ys1, xs0, xs1, range(len(xs0)))]:
    [zip] stops with the shortest array, and reads item [i] of the arrays when
    the loop reaches it *)
Definition swap_correction (s : segments) : segments :=
  let n := Nat.min (Nat.min (length (ys0 s)) (length (ys1 s)))
                   (Nat.min (length (xs0 s)) (length (xs1 s))) in
  fold_left swap_body (seq 0 n) s.

(** The four coordinates of segment [j], and the four in the order the loop
    is to leave them *)
Definition quad (s : segments) (j : nat) : float * float * float * float :=
  (item (xs0 s) j, item (xs1 s) j, item (ys0 s) j, item (ys1 s) j).

Definition ordered (q : float * float * float * float) : float * float * float * float :=
  let '(x0, x1, y0, y1) := q in
  if Float64.ltb y0 y1 then (x1, x0, y1, y0) else q.

Definition same_lengths (s : segments) (n : nat) : Prop :=
  length (xs0 s) = n /\ length (xs1 s) = n /\
  length (ys0 s) = n /\ length (ys1 s) = n.

(** [ndi.map_coordinates(fl, [xs, ys], order)]: one value per coordinate pair *)
Definition map_coordinates `{Numerics} (order : Z) (fl : image)
    (xs ys : list float) : list float :=
  zip_with (interpolate order fl) xs ys.

Definition map_coordinates2 `{Numerics} (order : Z) (fl : image)
    (all_xs all_ys : list (list float)) : list (list float) :=
  zip_with (map_coordinates order fl) all_xs all_ys.

Definition fsum (l : list float) : float :=
  match l with
  | [] => Float64.zero
  | x :: rest => fold_left Float64.add rest x
  end.

Definition column (j : nat) (rows : list (list float)) : list float :=
  map (fun row => item row j) rows.

(** [np.average(a, axis=0, weights=w)] where every column of [w] is [wcol] and
    [a] has [n] columns *)
Definition np_average_axis0 (a : list (list float)) (wcol : list float) (n : nat)
  : outcome (list float) :=
  let scl := fsum wcol in
  if (Nat.ltb 0 n && Float64.eqb scl Float64.zero)%bool then Raise ZeroDivisionError
  else Ret (map (fun j =>
                   Float64.div (fsum (zip_with Float64.mul (column j a) wcol)) scl)
                (seq 0 n)).

(** [mid.attr] on a midline that may be [None] *)
Definition deref (mid : option Polynomial) : outcome Polynomial :=
  match mid with
  | Some p => Ret p
  | None => Raise AttributeError
  end.

Section Sampling.
Context `{Numerics}.

(** The normal segments of the midline [p] at the abscissae [xs], before the
    swap: the lines of the source from [der = mid.deriv()] to [ys1 = ys + y1] *)
Definition normal_segments (p : Polynomial) (xs ys : list float)
    (thickness : pynum) : segments :=
  let der := poly_deriv p in
  let normal_slopes :=
    map (fun x => Float64.div (Float64.of_Z (-1)) (poly_call der x)) xs in
  let normal_thetas := map np_arctan normal_slopes in
  let mag := Float64.div (pynum_to_float thickness) (Float64.of_Z 2) in
  let x0 := map (fun t => Float64.mul (np_cos t) mag) normal_thetas in
  let y0 := map (fun t => Float64.mul (np_sin t) mag) normal_thetas in
  let x1 := map (fun t => Float64.mul (np_cos t) (Float64.neg mag)) normal_thetas in
  let y1 := map (fun t => Float64.mul (np_sin t) (Float64.neg mag)) normal_thetas in
  {| xs0 := zip_with Float64.add xs x0;
     xs1 := zip_with Float64.add xs x1;
     ys0 := zip_with Float64.add ys y0;
     ys1 := zip_with Float64.add ys y1 |}.

(** The [try] block of [measure_under_midline] *)
Definition measure_under_midline_body (fl : image) (mid : option Polynomial)
    (n_points : Z) (thickness : pynum) (order : Z) (norm_scale : float)
    (flatten : bool) : outcome ndarray :=
  if pynum_is_zero thickness then
    let! p := deref mid in
    let! (xs, ys) := poly_linspace p (PyInt n_points) in
    Ret (Arr1 (map_coordinates 1 fl xs ys))
  else
    let! p := deref mid in
    let! (xs, ys) := poly_linspace p (PyInt n_points) in
    let s := swap_correction (normal_segments p xs ys thickness) in
    let n_line_pts := thickness in
    let! all_xs := np_linspace (xs0 s) (xs1 s) n_line_pts in
    let! all_ys := np_linspace (ys0 s) (ys1 s) n_line_pts in
    let straightened := map_coordinates2 3 fl all_xs all_ys in
    if flatten then
      let! us := np_linspace1 (Float64.of_Z (-1)) (Float64.of_Z 1) n_line_pts in
      let w := map (fun u => norm_pdf u norm_scale) us in
      let! profile := np_average_axis0 straightened w (Z.to_nat n_points) in
      Ret (Arr1 profile)
    else
      Ret (Arr2 straightened).

Definition measure_under_midline (fl : image) (mid : option Polynomial)
    (n_points : Z) (thickness : pynum) (order : Z) (norm_scale : float)
    (flatten : bool) : outcome ndarray :=
  try_except
    (measure_under_midline_body fl mid n_points thickness order norm_scale flatten)
    (np_zeros_row n_points).

End Sampling.

(** ** Labelled stacks *)

(** An [xr.DataArray] with the dimensions [(animal, wavelength, pair)] over
    frames of type [A]: the coordinates, and the frame at each label.  [y_size]
    and [x_size] are the sizes of the two image dimensions. *)
Record DataArray (A : Type) : Type := {
  animals : nat;
  wavelengths : list string;
  pairs : list Z;
  y_size : nat;
  x_size : nat;
  frame : nat -> string -> Z -> A
}.

Arguments animals {A} _.
Arguments wavelengths {A} _.
Arguments pairs {A} _.
Arguments y_size {A} _.
Arguments x_size {A} _.
Arguments frame {A} _ _ _ _.

Definition has_label {K : Type} `{EqDecision K} (k : K) (l : list K) : bool :=
  bool_decide (k ∈ l).

(** [stack.isel(animal=a).sel(wavelength=w, pair=p)] *)
Definition sel {A : Type} (d : DataArray A) (a : nat) (w : string) (p : Z)
  : outcome A :=
  if negb (Nat.ltb a (animals d)) then Raise IndexError
  else if negb (has_label w (wavelengths d)) then Raise KeyError
  else if negb (has_label p (pairs d)) then Raise KeyError
  else Ret (frame d a w p).

(** [stack.loc[dict(wavelength=w, pair=p)][a] = v] *)
Definition set_frame {A : Type} (d : DataArray A) (a : nat) (w : string) (p : Z)
    (v : A) : DataArray A :=
  {| animals := animals d; wavelengths := wavelengths d; pairs := pairs d;
     y_size := y_size d; x_size := x_size d;
     frame := fun a' w' p' =>
       if (Nat.eqb a' a && String.eqb w' w && (p' =? p))%bool then v
       else frame d a' w' p' |}.

(** [d.loc[dict(wavelength=dst)] = d.sel(wavelength=src)] *)
Definition assign_wavelength {A : Type} (d : DataArray A) (dst src : string)
  : outcome (DataArray A) :=
  if negb (has_label src (wavelengths d)) then Raise KeyError
  else if negb (has_label dst (wavelengths d)) then Raise KeyError
  else
    let value := fun a p => frame d a src p in
    Ret {| animals := animals d; wavelengths := wavelengths d; pairs := pairs d;
           y_size := y_size d; x_size := x_size d;
           frame := fun a w p =>
             if String.eqb w dst then value a p else frame d a w p |}.

(** The labels of a stack in the order a loop nest over
    [(animal, wavelength, pair)] visits them *)
Definition labels {A : Type} (d : DataArray A) : list (nat * string * Z) :=
  flat_map (fun a =>
    flat_map (fun w => map (fun p => (a, w, p)) (pairs d)) (wavelengths d))
    (seq 0 (animals d)).

(** A loop whose body may raise: [for x in l: s = body(x, s)] *)
Fixpoint for_each {X S : Type} (l : list X) (body : X -> S -> outcome S) (s : S)
  : outcome S :=
  match l with
  | [] => Ret s
  | x :: l' => let! s' := body x s in for_each l' body s'
  end.

Definition at_label {A : Type} (d : DataArray A) (lbl : nat * string * Z) : A :=
  frame d (fst (fst lbl)) (snd (fst lbl)) (snd lbl).

Definition same_coords {A B : Type} (x : DataArray A) (y : DataArray B) : bool :=
  (Nat.eqb (animals x) (animals y)
   && bool_decide (wavelengths x = wavelengths y)
   && bool_decide (pairs x = pairs y))%bool.

(** [xr.apply_ufunc(f, x, y, vectorize=True)] over the stack dimensions: [f] is
    called on the two frames of every label; the stacks must have the same
    coordinates, and [np.vectorize] refuses inputs without a single frame.  A
    frame of [x] stands for the array [f] receives, with the core dimensions
    in the order [input_core_dims] names them. *)
Definition apply_ufunc {A B C : Type} (f : A -> B -> outcome C) (dflt : C)
    (x : DataArray A) (y : DataArray B) : outcome (DataArray C) :=
  if negb (same_coords x y) then Raise ValueError
  else
    match labels x with
    | [] => Raise ValueError
    | _ :: _ =>
        let! _ := for_each (labels x)
                    (fun lbl _ =>
                       let! _ := f (at_label x lbl) (at_label y lbl) in Ret tt)
                    tt in
        Ret {| animals := animals x; wavelengths := wavelengths x; pairs := pairs x;
               y_size := y_size x; x_size := x_size x;
               frame := fun a w p =>
                 match f (frame x a w p) (frame y a w p) with
                 | Ret c => c
                 | Raise _ => dflt
                 end |}
    end.

(** ** measure_under_midlines *)

Definition ravel (a : ndarray) : list float :=
  match a with
  | Arr1 v => v
  | Arr2 rows => concat rows
  end.

Section Batch.
Context `{Numerics}.

  (** One call of the vectorised sampler: the result fills the [position]
      dimension of the output.  [flatten] and [norm_scale] are not among the
      [kwargs], so the sampler runs with its defaults [True] and [1]. *)
Definition sample_frame (n_points : Z) (thickness : pynum) (order : Z)
      (fl : image) (mid : option Polynomial) : outcome (list float) :=
    let! r := measure_under_midline fl mid n_points thickness order
                (Float64.of_Z 1) true in
    Ret (ravel r).

  (** The caller's [midlines] object is updated in place by the [.loc]
      assignment: the function returns its contents after the call next to
      the outcome *)
Definition measure_under_midlines (fl_stack : DataArray image)
      (midlines : DataArray (option Polynomial)) (n_points : Z)
      (frame_specific : bool) (order : Z) (thickness : pynum) (flatten : bool)
    : DataArray (option Polynomial) * outcome (DataArray (list float)) :=
    let assigned :=
      if negb frame_specific then assign_wavelength midlines "470" "410"
      else Ret midlines in
    match assigned with
    | Raise e => (midlines, Raise e)
    | Ret midlines =>
        (midlines,
         apply_ufunc (sample_frame n_points thickness order) [] fl_stack midlines)
    end.

End Batch.

(** ** center_and_rotate_pharynxes *)

Definition nonzero (m : mask) : list (nat * nat) := foreground m.

(** [np.mean(idx)] of a list of indices *)
Definition mean_index (l : list nat) : float :=
  Float64.div (Float64.of_Z (Z.of_nat (foldr Nat.add 0%nat l)))
              (Float64.of_Z (Z.of_nat (length l))).

Section Pose.
Context `{Numerics}.

Definition rotate {A : Type} (img : list (list A)) (tform : float * float)
      (orient : float) (order : Z) : list (list A) :=
    transform_rotate (transform_warp img tform order)
      (np_degrees (Float64.sub (Float64.div np_pi (Float64.of_Z 2)) orient))
      order.

  (** The body of the innermost loop, on the two stacks under construction *)
Definition center_and_rotate_frame (fl_images : DataArray image)
      (seg_images : DataArray mask) (reference_wavelength : string)
      (img_center_y img_center_x : Z) (lbl : nat * string * Z)
      (st : DataArray image * DataArray mask)
    : outcome (DataArray image * DataArray mask) :=
    let '(img_idx, wvl, pr) := lbl in
    let '(fl_rotated_stack, seg_rotated_stack) := st in
    let! reference_seg := sel seg_images img_idx reference_wavelength pr in
    let! img := sel fl_images img_idx wvl pr in
    let! seg := sel seg_rotated_stack img_idx wvl pr in
    let! props := try_except_only IndexError (regionprops_0 reference_seg)
                    (Raise (NoBinaryObjects img_idx wvl pr)) in
    let pharynx_center_y := mean_index (map fst (nonzero reference_seg)) in
    let pharynx_center_x := mean_index (map snd (nonzero reference_seg)) in
    let pharynx_orientation := orientation props in
    let translation :=
      (Float64.neg (Float64.sub (Float64.of_Z img_center_x) pharynx_center_x),
       Float64.neg (Float64.sub (Float64.of_Z img_center_y) pharynx_center_y)) in
    let rotated_img := rotate img translation pharynx_orientation 1 in
    let rotated_seg := rotate seg translation pharynx_orientation 0 in
    Ret (set_frame fl_rotated_stack img_idx wvl pr rotated_img,
         set_frame seg_rotated_stack img_idx wvl pr rotated_seg).

  (** The blurred segmentation the source computes first is never read and is
      left out *)
Definition center_and_rotate_pharynxes (fl_images : DataArray image)
      (seg_images : DataArray mask) (reference_wavelength : string)
    : outcome (DataArray image * DataArray mask) :=
    let img_center_y := Z.of_nat (y_size fl_images) / 2 in
    let img_center_x := Z.of_nat (x_size fl_images) / 2 in
    let fl_rotated_stack := fl_images in
    let seg_rotated_stack := seg_images in
    for_each (labels fl_images)
      (center_and_rotate_frame fl_images seg_images reference_wavelength
         img_center_y img_center_x)
      (fl_rotated_stack, seg_rotated_stack).

End Pose.

(** ** segment_pharynx *)

(** A 2-D [xr.DataArray] with its scalar [wavelength] coordinate *)
Record FlImage : Type := {
  wavelength : string;
  data : image
}.

(** What [segment_pharynx] returns: the zeroed copy of the image for a
    transmitted-light frame, a boolean array otherwise *)
Inductive segmentation : Type :=
| ZeroedCopy (img : image)
| Thresholded (m : mask).

Definition seg_shape (s : segmentation) : list nat :=
  match s with
  | ZeroedCopy img => map length img
  | Thresholded m => map length m
  end.

(** Every pixel is 0 or 1 *)
Definition is_binary (s : segmentation) : Prop :=
  match s with
  | ZeroedCopy img =>
      Forall (Forall (fun v => v = Float64.zero \/ v = Float64.of_Z 1)) img
  | Thresholded _ => True
  end.

Definition lower_ascii (c : ascii) : ascii :=
  let n := nat_of_ascii c in
  if (Nat.leb 65 n && Nat.leb n 90)%bool then ascii_of_nat (n + 32) else c.

Fixpoint lower (s : string) : string :=
  match s with
  | EmptyString => EmptyString
  | String c s' => String (lower_ascii c) (lower s')
  end.

(** [sub in s] *)
Fixpoint contains (sub s : string) : bool :=
  (String.prefix sub s ||
   match s with
   | EmptyString => false
   | String _ s' => contains sub s'
   end)%bool.

(** [img.max()]: NaN pixels are skipped *)
Definition img_max (img : image) : outcome float :=
  match concat img with
  | [] => Raise ValueError
  | v :: rest =>
      Ret (fold_left (fun acc x =>
                        if Float64.is_nan acc then x
                        else if Float64.gtb x acc then x else acc) rest v)
  end.

(** [img > t] *)
Definition threshold (img : image) (t : float) : mask :=
  map (map (fun v => Float64.gtb v t)) img.

Definition target_area : Z := 450.
Definition area_range : Z := 100.
Definition min_area : Z := target_area - area_range.
Definition max_area : Z := target_area + area_range.
Definition max_iter : Z := 300.

(** The variables of the threshold search; [i] counts the completed updates *)
Record search : Type := {
  p : float;
  S : mask;
  cur_area : Z;
  i : Z
}.

Inductive step : Type :=
| Return (m : mask) (updates : Z)
| Continue (st : search)
| Throw (e : exn).

(** [(min_area > area) or (area > max_area)], the test of the [while] *)
Definition loop_condition (st : search) : bool :=
  ((min_area >? cur_area st) || (cur_area st >? max_area))%bool.

(** [p] after the two [if]s of the body, for the area of the current mask *)
Definition next_p (p : float) (area : Z) : float :=
  let p1 := if area >? max_area
            then Float64.add p (Float64.ratio 1 100) else p in
  if area <? min_area then Float64.sub p1 (Float64.ratio 1 100) else p1.

(** [p < 0] or [p > 0.9] *)
Definition out_of_range (p : float) : bool :=
  (Float64.ltb p Float64.zero || Float64.gtb p (Float64.ratio 9 10))%bool.

(** [fl_img > (fl_img.max() * 0.15)] *)
Definition default_mask (img : image) (mx : float) : mask :=
  threshold img (Float64.mul mx (Float64.ratio 15 100)).

(** The test of the [while] and one run of its body; [mx] is [fl_img.max()],
    which the source evaluates anew at each use on the unchanged image.  A
    [Return] carries the number of updates completed so far, a [Throw] the
    exception of [get_area_of_largest_object]. *)
Definition search_step (img : image) (mx : float) (st : search) : step :=
  if loop_condition st then
    if i st >=? max_iter then Return (S st) (i st)
    else
      match get_area_of_largest_object (S st) with
      | Raise e => Throw e
      | Ret area =>
          let p' := next_p (p st) area in
          let i' := i st + 1 in
          let t := Float64.mul mx p' in
          let S' := threshold img t in
          if Float64.ltb p' Float64.zero then Return (default_mask img mx) i'
          else if Float64.gtb p' (Float64.ratio 9 10)
               then Return (default_mask img mx) i'
          else Continue {| p := p'; S := S'; cur_area := area; i := i' |}
      end
  else Return (S st) (i st).

(** The [while] loop, at most [fuel] tests of its condition *)
Fixpoint search_loop (fuel : nat) (img : image) (mx : float) (st : search)
  : option (outcome (mask * Z)) :=
  match fuel with
  | O => None
  | Datatypes.S k =>
      match search_step img mx st with
      | Return m n => Some (Ret (m, n))
      | Continue st' => search_loop k img mx st'
      | Throw e => Some (Raise e)
      end
  end.

(** [segment_pharynx] with a bound on the tests of the loop condition: the
    mask and the number of updates of the loop, or [None] when [fuel] tests did
    not finish the loop *)
Definition segment_pharynx_fuel (fuel : nat) (fl_img : FlImage)
  : option (outcome (segmentation * Z)) :=
  let seg := data fl_img in
  if contains "tl" (lower (wavelength fl_img)) then
    Some (Ret (ZeroedCopy (map (map (fun _ => Float64.zero)) seg), 0))
  else
    match img_max (data fl_img) with
    | Raise e => Some (Raise e)
    | Ret mx =>
        let p0 := Float64.ratio 15 100 in
        let t := Float64.mul mx p0 in
        let S0 := threshold (data fl_img) t in
        match get_area_of_largest_object S0 with
        | Raise e => Some (Raise e)
        | Ret area =>
            match search_loop fuel (data fl_img) mx
                    {| p := p0; S := S0; cur_area := area; i := 0 |} with
            | None => None
            | Some (Ret (m, n)) => Some (Ret (Thresholded m, n))
            | Some (Raise e) => Some (Raise e)
            end
        end
    end.

Definition segment_pharynx (fl_img : FlImage) : option (outcome (segmentation * Z)) :=
  segment_pharynx_fuel (Datatypes.S (Z.to_nat max_iter)) fl_img.

(** ** normalize_images_single_wvl *)

(** [x.astype(np.float32)]: rounding to binary32, the value kept as a float *)
Definition astype_float32 (x : float) : float :=
  match x with
  | S754_finite s m e =>
      match binary_round 24 128 s m e with
      | S754_finite s' m' e' => binary_round Float64.prec Float64.emax s' m' e'
      | y => y
      end
  | _ => x
  end.

(** The bounds of the Python slice [l[start:stop]] of a list of length [n] *)
Definition slice_index (n x : Z) : Z :=
  if x <? 0 then Z.max (x + n) 0 else Z.min x n.

Definition py_slice {A : Type} (l : list A) (start stop : Z) : list A :=
  let n := Z.of_nat (length l) in
  let lo := slice_index n start in
  let hi := slice_index n stop in
  take (Z.to_nat (hi - lo)) (drop (Z.to_nat lo) l).

(** [int(length * percent_to_clip / 100)] *)
Definition idx_to_clip (length : Z) (percent_to_clip : pynum) : outcome Z :=
  match percent_to_clip with
  | PyInt c => py_int (Float64.div (Float64.of_Z (length * c)) (Float64.of_Z 100))
  | PyFloat c =>
      py_int (Float64.div (Float64.mul (Float64.of_Z length) c) (Float64.of_Z 100))
  end.

(** The part of a profile that [profiles[:, idx_to_clip:-idx_to_clip]] keeps *)
Definition clip_window (profile : list float) (k : Z) : list float :=
  py_slice profile k (- k).

(** The positions of the profile that the clipped window holds *)
Definition window_positions (length : nat) (k : Z) : list nat :=
  py_slice (seq 0 length) k (- k).

(** The two kinds of array the function takes: a plain [np.ndarray], whose
    arithmetic broadcasts by position from the last axis, and an
    [xr.DataArray], whose arithmetic pairs the values by the name and the
    index of their dimensions and whose reductions skip NaN.  For [XArray] the
    first dimension of the images and of the profiles is the same dimension. *)
Inductive array_kind : Type :=
| NdArray
| XArray.

(** [np.mean] of one row of an [ndarray]: the sum over the count, NaN for an
    empty row *)
Definition np_mean (l : list float) : float :=
  Float64.div (fsum l) (Float64.of_Z (Z.of_nat (length l))).

(** [np.min] and [np.max] of one row of an [ndarray]: a NaN of the row is the
    result *)
Definition np_min (l : list float) : outcome float :=
  match l with
  | [] => Raise ValueError
  | v :: rest =>
      Ret (fold_left (fun acc x =>
                        if Float64.is_nan acc then acc
                        else if Float64.is_nan x then x
                        else if Float64.ltb x acc then x else acc) rest v)
  end.

Definition np_max (l : list float) : outcome float :=
  match l with
  | [] => Raise ValueError
  | v :: rest =>
      Ret (fold_left (fun acc x =>
                        if Float64.is_nan acc then acc
                        else if Float64.is_nan x then x
                        else if Float64.gtb x acc then x else acc) rest v)
  end.

(** The same reductions of one row of a [DataArray], which skip NaN: in the
    mean a NaN adds 0 to the sum and nothing to the count *)
Definition nan_mean (l : list float) : float :=
  Float64.div
    (fsum (map (fun v => if Float64.is_nan v then Float64.zero else v) l))
    (Float64.of_Z
       (Z.of_nat (length (List.filter (fun v => negb (Float64.is_nan v)) l)))).

Definition nan_min (l : list float) : outcome float :=
  match l with
  | [] => Raise ValueError
  | v :: rest =>
      Ret (fold_left (fun acc x =>
                        if Float64.is_nan acc then x
                        else if Float64.ltb x acc then x else acc) rest v)
  end.

Definition nan_max (l : list float) : outcome float :=
  match l with
  | [] => Raise ValueError
  | v :: rest =>
      Ret (fold_left (fun acc x =>
                        if Float64.is_nan acc then x
                        else if Float64.gtb x acc then x else acc) rest v)
  end.

(** [row op v] for the last axis [row] of an [ndarray] and a 1-D array [v]:
    numpy pairs the values by position when the lengths agree, stretches the
    side of length 1 otherwise, and refuses any other pair of lengths *)
Definition broadcast_last (op : float -> float -> float) (row v : list float)
  : outcome (list float) :=
  if Nat.eqb (length row) (length v) then Ret (zip_with op row v)
  else
    match v with
    | [y] => Ret (map (fun x => op x y) row)
    | _ =>
        match row with
        | [x] => Ret (map (op x) v)
        | _ => Raise ValueError
        end
    end.

(** [mapM] for [outcome] *)
Fixpoint traverse {A B : Type} (f : A -> outcome B) (l : list A) : outcome (list B) :=
  match l with
  | [] => Ret []
  | x :: l' => let! y := f x in let! ys := traverse f l' in Ret (y :: ys)
  end.

(** [imgs op v] for a stack of frames and a 1-D array [v] of an [ndarray]:
    [v] runs along the columns of every row of every frame *)
Definition broadcast_frames (op : float -> float -> float) (imgs : list image)
    (v : list float) : outcome (list image) :=
  traverse (traverse (fun row => broadcast_last op row v)) imgs.

(** The two [ndim] checks hold by typing.  The statistics are one value per
    profile.  For [XArray] the arithmetic pairs frame [i] with the statistics
    of profile [i], up to the shorter of the two stacks; for [NdArray] the
    arrays of statistics, of shape [(frame,)], are broadcast along the last
    axis of the profiles and of the images.  A list of rows does not record
    the number of columns of a frame without rows: the frames are taken with
    a row at least. *)
Definition normalize_images_single_wvl (kind : array_kind) (fl_imgs : list image)
    (profiles : list (list float)) (percent_to_clip : pynum)
  : outcome (list image) :=
  let normed_imgs := map (map (map astype_float32)) fl_imgs in
  let! k := idx_to_clip (Z.of_nat (length (hd [] profiles))) percent_to_clip in
  let profiles := map (fun prof => clip_window prof k) profiles in
  match kind with
  | XArray =>
      let prof_means := map nan_mean profiles in
      let profiles := zip_with (fun prof m => map (fun v => Float64.sub v m) prof)
                               profiles prof_means in
      let normed_imgs :=
        zip_with (fun img m => map (map (fun v => Float64.sub v m)) img)
                 normed_imgs prof_means in
      let! prof_mins := traverse nan_min profiles in
      let! prof_maxs := traverse nan_max profiles in
      Ret (zip_with (fun img mm =>
                       map (map (fun v => Float64.div (Float64.sub v (fst mm))
                                            (Float64.sub (snd mm) (fst mm)))) img)
                    normed_imgs (zip prof_mins prof_maxs))
  | NdArray =>
      let prof_means := map np_mean profiles in
      let! profiles :=
        traverse (fun prof => broadcast_last Float64.sub prof prof_means) profiles in
      let! normed_imgs := broadcast_frames Float64.sub normed_imgs prof_means in
      let! prof_mins := traverse np_min profiles in
      let! prof_maxs := traverse np_max profiles in
      let! shifted := broadcast_frames Float64.sub normed_imgs prof_mins in
      broadcast_frames Float64.div shifted (zip_with Float64.sub prof_maxs prof_mins)
  end.

(** A profile of small integers, for the examples *)
Definition floats (l : list Z) : list float := map Float64.of_Z l.


(** ** An instance of the numeric routines

    The simplest routines of the right types: a constant fit, the pixel at the
    truncated coordinates, no warping.  The statements below hold for every
    instance; this one runs the definitions on concrete inputs. *)

Definition nearest_pixel (img : image) (x y : float) : float :=
  match Float64.trunc x, Float64.trunc y with
  | Some r, Some c =>
      if ((0 <=? r) && (0 <=? c))%bool
      then nth (Z.to_nat c) (nth (Z.to_nat r) img []) Float64.zero
      else Float64.zero
  | _, _ => Float64.zero
  end.

Definition plain_numerics : Numerics := {|
  lstsq_fit := fun _ ys _ _ => [np_mean ys];
  np_arctan := fun x => x;
  np_cos := fun _ => Float64.of_Z 1;
  np_sin := fun x => x;
  np_pi := Float64.ratio 355 113;
  np_degrees := fun x => Float64.mul x (Float64.ratio 180 3);
  interpolate := fun _ img x y => nearest_pixel img x y;
  norm_pdf := fun _ _ => Float64.of_Z 1;
  orientation := fun _ => Float64.zero;
  transform_warp := fun _ img _ _ => img;
  transform_rotate := fun _ img _ _ => img
|}.

Definition line (c0 c1 : Z) (lo hi : Z) : Polynomial :=
  {| coef := floats [c0; c1];
     domain := (Float64.of_Z lo, Float64.of_Z hi);
     window := default_window |}.

Definition ramp (rows cols : nat) : image :=
  map (fun r => map (fun c => Float64.of_Z (Z.of_nat (r + c))) (seq 0 cols)) (seq 0 rows).

(** A mask of [rows] by [cols] pixels with the one foreground pixel [(r, c)] *)
Definition single_pixel_mask (rows cols r c : nat) : mask :=
  map (fun r' => map (fun c' => (Nat.eqb r' r && Nat.eqb c' c)%bool) (seq 0 cols))
      (seq 0 rows).

(** The first exception among the labels of a loop whose body raises at
    the labels [bad] marks *)
Fixpoint first_error {X : Type} (bad : X -> option exn) (l : list X) : option exn :=
  match l with
  | [] => None
  | x :: l' => match bad x with Some e => Some e | None => first_error bad l' end
  end.

(** A stack of one animal and one pair, the same image under each of the
    given wavelengths *)
Definition one_animal {A : Type} (wvls : list string) (f : string -> A) : DataArray A :=
  {| animals := 1; wavelengths := wvls; pairs := [0];
     y_size := 6; x_size := 6;
     frame := fun _ w _ => f w |}.

Definition three_channels : list string := ["410"; "470"; "560"]%string.

Definition fl_three : DataArray image :=
  one_animal three_channels (fun _ => ramp 6 6).

(** Three different midlines, one per channel *)
Definition midlines_three : DataArray (option Polynomial) :=
  one_animal three_channels
    (fun w => if String.eqb w "410" then Some (line 0 0 0 4)
              else if String.eqb w "470" then Some (line 1 0 0 4)
              else Some (line 2 1 0 4)).

(** The exception the loop of [center_and_rotate_pharynxes] raises at a
    label, if any: the [ValueError] of [regionprops] for a reference mask
    without a pixel, which [except IndexError] lets through, and the one with
    the message of the handler for a reference mask with pixels and no object *)
Definition reference_error (seg_images : DataArray mask)
    (reference_wavelength : string) (lbl : nat * string * Z) : option exn :=
  let '(a, w, p) := lbl in
  match concat (frame seg_images a reference_wavelength p) with
  | [] => Some ValueError
  | _ :: _ =>
      match first_region (frame seg_images a reference_wavelength p) with
      | None => Some (NoBinaryObjects a w p)
      | Some _ => None
      end
  end.

(** The loop keeps the labels of the mask stack it builds *)
Definition same_labels (seg_images : DataArray mask)
    (st : DataArray image * DataArray mask) : Prop :=
  animals (snd st) = animals seg_images /\
  wavelengths (snd st) = wavelengths seg_images /\
  pairs (snd st) = pairs seg_images.

Definition two_channels : list string := ["410"; "470"]%string.

Definition fl_two : DataArray image :=
  one_animal two_channels (fun _ => ramp 6 6).

(** Two different midlines, one per channel *)
Definition midlines_two : DataArray (option Polynomial) :=
  one_animal two_channels
    (fun w => if String.eqb w "410" then Some (line 0 0 0 4)
              else Some (line 1 0 0 4)).

(** ** get_lr_bounds *)

(** One pair [(left, right)] per animal; the values are integers, which the
    float array of the source and its final cast to [int] keep as they are.
    Neither the [IndexError] of a mask without object nor the [ValueError] of
    a mask without pixel is caught.  [np.int] is Python's [int], as in the
    releases of numpy that have the name. *)
Definition get_lr_bounds (rot_seg_stack : DataArray mask) (pad : Z)
    (ref_wvl : string) (ref_pair : Z) : outcome (list (Z * Z)) :=
  if negb (has_label ref_wvl (wavelengths rot_seg_stack)) then Raise KeyError
  else if negb (has_label ref_pair (pairs rot_seg_stack)) then Raise KeyError
  else
    traverse (fun a => get_lr_bounds_frame (frame rot_seg_stack a ref_wvl ref_pair) pad)
             (seq 0 (animals rot_seg_stack)).

(** ** extract_largest_binary_object *)

Definition in_region (comp : list (nat * nat)) (q : nat * nat) : bool :=
  existsb (pix_eqb q) comp.

(** [measure.label]: the regions in the order of their labels, each the
    component of the first pixel, in raster order, that no earlier region
    holds *)
Fixpoint components (fuel : nat) (fg : list (nat * nat)) : list (list (nat * nat)) :=
  match fuel, fg with
  | Datatypes.S k, q :: rest =>
      let comp := flood (length rest) [q] rest in
      List.filter (in_region comp) (q :: rest)
      :: components k (List.filter (fun q' => negb (in_region comp q')) rest)
  | _, _ => []
  end.

Definition label_regions (m : mask) : list (list (nat * nat)) :=
  components (length (foreground m)) (foreground m).

(** [np.argmax]: the first position of the greatest value *)
Fixpoint argmax_from (best_i best i : nat) (l : list nat) : nat :=
  match l with
  | [] => best_i
  | x :: l' =>
      if Nat.ltb best x then argmax_from i x (Datatypes.S i) l'
      else argmax_from best_i best (Datatypes.S i) l'
  end.

Definition argmax (l : list nat) : nat :=
  match l with
  | [] => 0%nat
  | x :: l' => argmax_from 0 x 1 l'
  end.

(** [labels == k]: the pixels of one region, in an array of the shape of [m] *)
Definition region_mask (m : mask) (comp : list (nat * nat)) : mask :=
  imap (fun r row => imap (fun c _ => in_region comp (r, c)) row) m.

(** [labels.max()] raises [ValueError] on an array without a single pixel;
    [np.bincount(labels.flat)[1:]] holds the areas of the regions *)
Definition extract_largest_binary_object (bin_img : mask) : outcome mask :=
  match concat bin_img with
  | [] => Raise ValueError
  | _ :: _ =>
      let regions := label_regions bin_img in
      match regions with
      | [] => Ret bin_img
      | _ :: _ =>
          Ret (region_mask bin_img (nth (argmax (map length regions)) regions []))
      end
  end.

(** ** calculate_midlines *)

(** [xr.apply_ufunc(f, x, vectorize=True)] with one argument; [np.vectorize]
    refuses an input without a single frame *)
Definition apply_ufunc1 {A C : Type} (f : A -> outcome C) (dflt : C)
    (x : DataArray A) : outcome (DataArray C) :=
  match labels x with
  | [] => Raise ValueError
  | _ :: _ =>
      let! _ := for_each (labels x)
                  (fun lbl _ => let! _ := f (at_label x lbl) in Ret tt) tt in
      Ret {| animals := animals x; wavelengths := wavelengths x; pairs := pairs x;
             y_size := y_size x; x_size := x_size x;
             frame := fun a w p =>
               match f (frame x a w p) with
               | Ret c => c
               | Raise _ => dflt
               end |}
  end.

(** [degree] is not handed on: every frame is fitted with the defaults of
    [calculate_midline], [degree = 4] and [pad = 10] *)
Definition calculate_midlines `{Numerics} (rot_seg_stack : DataArray mask)
    (degree : Z) : outcome (DataArray (option Polynomial)) :=
  apply_ufunc1 (fun img => calculate_midline img 4 10) None rot_seg_stack.

(** ** The transform of center_and_rotate_pharynxes *)

(** The translation the loop body builds from a reference mask *)
Definition reference_translation (img_center_y img_center_x : Z)
    (reference_seg : mask) : float * float :=
  let pharynx_center_y := mean_index (map fst (nonzero reference_seg)) in
  let pharynx_center_x := mean_index (map snd (nonzero reference_seg)) in
  (Float64.neg (Float64.sub (Float64.of_Z img_center_x) pharynx_center_x),
   Float64.neg (Float64.sub (Float64.of_Z img_center_y) pharynx_center_y)).

(** ** segment_pharynxes *)

(** A boolean array stored into an array of numbers: [True] is 1 *)
Definition as_image (m : mask) : image :=
  map (map (fun b : bool => if b then Float64.of_Z 1 else Float64.zero)) m.

(** [extract_largest_binary_object(segment_pharynx(I))] as the pixel values
    the assignment [seg[selector] = ...] stores.  In the zeroed copy of a
    frame every pixel is background: [measure.label] finds no object, and
    [return bin_img] hands back the copy itself, unless the copy has no pixel
    and [labels.max()] raises.  The loop of [segment_pharynx] never needs more
    than its 301 tests; the last branch is there for the typing only. *)
Definition segment_frame (w : string) (img : image) : outcome image :=
  match segment_pharynx {| wavelength := w; data := img |} with
  | Some (Ret (ZeroedCopy z, _)) =>
      let! _ := extract_largest_binary_object (map (map (fun _ => false)) z) in
      Ret z
  | Some (Ret (Thresholded S, _)) =>
      let! largest := extract_largest_binary_object S in
      Ret (as_image largest)
  | Some (Raise e) => Raise e
  | None => Raise ValueError
  end.

(** One turn of the loops.  The frames are named by their labels, which
    stand for the positions [isel] takes: the labels of a stack are distinct. *)
Definition segment_pharynxes_frame (fl_stack : DataArray image)
    (lbl : nat * string * Z) (seg : DataArray image) : outcome (DataArray image) :=
  let '(img_idx, wvl, pr) := lbl in
  if String.eqb (lower wvl) "tl" then Ret seg
  else
    let I := frame fl_stack img_idx wvl pr in
    let! S := segment_frame wvl I in
    Ret (set_frame seg img_idx wvl pr S).

(** [threshold] is not used *)
Definition segment_pharynxes (fl_stack : DataArray image) (threshold : Z)
  : outcome (DataArray image) :=
  let seg := fl_stack in
  for_each (labels fl_stack) (segment_pharynxes_frame fl_stack) seg.

(** The exception of one turn of the loops, if any *)
Definition segment_error (fl_stack : DataArray image) (lbl : nat * string * Z)
  : option exn :=
  let '(a, w, p) := lbl in
  if String.eqb (lower w) "tl" then None
  else match concat (frame fl_stack a w p) with
       | [] => Some ValueError
       | _ :: _ => None
       end.

(** * Properties *)

(** ** Masks without and with foreground *)

Lemma filter_none {A : Type} (f : A -> bool) (l : list A) :
  (forall x, In x l -> f x = false) -> List.filter f l = [].
Proof.
  induction l as [|x l IH]; intros Hf; [reflexivity|].
  cbn. rewrite (Hf x (or_introl eq_refl)). apply IH.
  intros y Hy. apply Hf. now right.
Qed.

Lemma row_foreground_nil (r : nat) (row : list bool) :
  (forall c, nth c row false = false) -> row_foreground r row = [].
Proof.
  intros Hrow. unfold row_foreground.
  rewrite filter_none; [reflexivity|]. intros c _. apply Hrow.
Qed.

Lemma imap_all_nil {A B : Type} (f : nat -> A -> list B) (l : list A) :
  (forall k x, In x l -> f k x = []) -> concat (imap f l) = [].
Proof.
  revert f. induction l as [|x l IH]; intros f Hf; [reflexivity|].
  cbn. rewrite (Hf 0%nat x (or_introl eq_refl)). cbn.
  apply IH. intros k y Hy. apply Hf. now right.
Qed.

Lemma foreground_nil (m : mask) :
  (forall r c, pixel m r c = false) -> foreground m = [].
Proof.
  intros Hpix. unfold foreground. apply imap_all_nil.
  intros k row Hin. apply row_foreground_nil. intros c.
  destruct (In_nth m row [] Hin) as (r & _ & Hr).
  specialize (Hpix r c). unfold pixel in Hpix. now rewrite Hr in Hpix.
Qed.

Lemma nth_all_false (row : list bool) (c : nat) :
  forallb negb row = true -> nth c row false = false.
Proof.
  revert c. induction row as [|b row IH]; intros [|c] Hall; try reflexivity.
  - cbn in Hall. now destruct b.
  - cbn in Hall. apply andb_prop in Hall as [_ Hall]. now apply IH.
Qed.

Lemma background_pixels (m : mask) :
  forallb (forallb negb) m = true -> forall r c, pixel m r c = false.
Proof.
  unfold pixel. induction m as [|row m IH]; intros Hall r c.
  - now destruct r, c.
  - cbn in Hall. apply andb_prop in Hall as [Hrow Hall]. destruct r as [|r].
    + now apply nth_all_false.
    + now apply IH.
Qed.

Lemma first_region_empty (m : mask) :
  (forall r c, pixel m r c = false) -> first_region m = None.
Proof.
  intros Hpix. unfold first_region. now rewrite foreground_nil.
Qed.

Lemma row_foreground_In (r c : nat) (row : list bool) :
  nth c row false = true -> In (r, c) (row_foreground r row).
Proof.
  intros Hc. unfold row_foreground. apply in_map, filter_In. split; [|exact Hc].
  apply in_seq. split; [lia|]. cbn.
  destruct (Nat.lt_ge_cases c (length row)) as [Hlt|Hge]; [exact Hlt|].
  rewrite nth_overflow in Hc by exact Hge. discriminate.
Qed.

Lemma imap_row_In {B : Type} (f : nat -> list bool -> list B) (m : mask)
    (r : nat) (x : B) :
  In x (f r (nth r m [])) -> (r < length m)%nat -> In x (concat (imap f m)).
Proof.
  revert f r. induction m as [|row m IH]; intros f r Hx Hr; [cbn in Hr; lia|].
  cbn. apply in_or_app. destruct r as [|r].
  - left. exact Hx.
  - right. apply (IH (f ∘ Datatypes.S) r); [exact Hx | cbn in Hr; lia].
Qed.

Lemma foreground_In (m : mask) (r c : nat) :
  pixel m r c = true -> In (r, c) (foreground m).
Proof.
  intros Hpix. unfold foreground, pixel in *.
  apply (imap_row_In row_foreground m r).
  - now apply row_foreground_In.
  - destruct (Nat.lt_ge_cases r (length m)) as [Hlt|Hge]; [exact Hlt|].
    rewrite (nth_overflow m [] Hge) in Hpix. now destruct c.
Qed.

Lemma first_region_nonempty (m : mask) (r c : nat) :
  pixel m r c = true -> exists rp, first_region m = Some rp.
Proof.
  intros Hpix. apply foreground_In in Hpix. unfold first_region.
  destruct (foreground m) as [|q rest]; [destruct Hpix | eauto].
Qed.

Lemma first_region_None_iff (m : mask) :
  first_region m = None <-> forall r c, pixel m r c = false.
Proof.
  split; [|apply first_region_empty].
  intros Hnone r c. destruct (pixel m r c) eqn:Hpix; [|reflexivity].
  destruct (first_region_nonempty m r c Hpix) as [rp Hrp]. congruence.
Qed.

(** A mask without a single pixel has no foreground *)
Lemma no_pixel_background (m : mask) :
  concat m = [] -> forall r c, pixel m r c = false.
Proof.
  unfold pixel. induction m as [|row m IH]; intros Hnil r c.
  - now destruct r, c.
  - cbn in Hnil. apply app_eq_nil in Hnil as [-> Hm]. destruct r as [|r].
    + now destruct c.
    + now apply IH.
Qed.

Lemma first_region_pixels (m : mask) (rp : region) :
  first_region m = Some rp -> concat m <> [].
Proof.
  intros Hrp Hnil.
  rewrite (first_region_empty m (no_pixel_background m Hnil)) in Hrp. discriminate.
Qed.

(** The three outcomes of [regionprops(label(m))[0]] *)
Lemma regionprops_0_cases (m : mask) :
  match first_region m with
  | Some rp => regionprops_0 m = Ret rp
  | None =>
      match concat m with
      | [] => regionprops_0 m = Raise ValueError
      | _ :: _ => regionprops_0 m = Raise IndexError
      end
  end.
Proof.
  unfold regionprops_0. destruct (concat m) eqn:Hm.
  - now rewrite (first_region_empty m (no_pixel_background m Hm)).
  - now destruct (first_region m).
Qed.

(** and of [get_area_of_largest_object] *)
Lemma get_area_of_largest_object_cases (m : mask) :
  match concat m with
  | [] => get_area_of_largest_object m = Raise ValueError
  | _ :: _ =>
      get_area_of_largest_object m
      = Ret (match first_region m with Some rp => area rp | None => 0 end)
  end.
Proof.
  unfold get_area_of_largest_object, regionprops_0.
  destruct (concat m); [reflexivity|]. now destruct (first_region m).
Qed.

Lemma get_area_of_largest_object_returns (m : mask) :
  concat m <> [] -> exists a, get_area_of_largest_object m = Ret a.
Proof.
  intros Hm. pose proof (get_area_of_largest_object_cases m) as Hcases.
  destruct (concat m); [congruence | eauto].
Qed.

Section Midline.
Context `{Numerics}.

  (** What the code computes for a mask with a foreground object and a degree
      that is not negative.  The domain starts [pad] before the first item of
      [bbox], the top row of the object, and ends [pad] after its last item,
      the column after the right-most one; when the two ends meet, the fit
      raises [LinAlgError], which the handler does not catch *)
Lemma calculate_midline_domain (m : mask) (rp : region) (degree pad : Z) :
    first_region m = Some rp -> 0 <= degree ->
    let lo := Z.of_nat (list_min (hd 0%nat (map fst (coords rp)))
                                 (map fst (coords rp))) - pad in
    let hi := Z.of_nat (Datatypes.S (list_max (map snd (coords rp)))) + pad in
    (lo = hi -> calculate_midline m degree pad = Raise LinAlgError) /\
    (lo <> hi ->
     exists poly,
       calculate_midline m degree pad = Ret (Some poly) /\
       domain poly = (Float64.of_Z lo, Float64.of_Z hi)).
Proof.
    intros Hrp Hdeg lo hi. unfold calculate_midline.
    pose proof (regionprops_0_cases m) as Hreg. rewrite Hrp in Hreg. rewrite Hreg.
    cbn [obind]. unfold bbox, Polynomial_fit. fold lo hi.
    destruct (degree <? 0) eqn:Hneg; [lia|].
    destruct (Z.eqb_spec lo hi) as [Heq|Hne]; split; intros Hends;
      try contradiction; cbn; [reflexivity|].
    eexists. split; reflexivity.
Qed.

  (** The midline is [None] only for a mask with pixels and no foreground *)
Lemma calculate_midline_None (m : mask) (degree pad : Z) (mid : option Polynomial) :
    calculate_midline m degree pad = Ret mid ->
    concat m <> [] /\ (mid = None <-> forall r c, pixel m r c = false).
Proof.
    unfold calculate_midline. pose proof (regionprops_0_cases m) as Hreg.
    destruct (first_region m) as [rp|] eqn:Hrp.
    - rewrite Hreg. cbn [obind]. destruct (bbox rp) as [[[t l] b] r].
      destruct (Polynomial_fit _ _ _ _ _) as [poly|e] eqn:Hfit; cbn [obind].
      + cbn. intros [= <-]. split; [now apply (first_region_pixels m rp)|].
        split; [discriminate|]. intros Hempty.
        rewrite (first_region_empty m Hempty) in Hrp. discriminate.
      + unfold Polynomial_fit in Hfit.
        destruct (degree <? 0); [|destruct (_ =? _)]; try discriminate;
          injection Hfit as <-; discriminate.
    - pose proof (proj1 (first_region_None_iff m) Hrp) as Hempty.
      destruct (concat m); rewrite Hreg; cbn; [discriminate|].
      intros [= <-]. split; [discriminate | tauto].
Qed.


  (** C1, the code at a mask of 8 by 8 pixels whose one object is the pixel in
      row 5 and column 2.  The bounding box is [(5, 2, 6, 3)]: the columns of
      the object are [2, 3).  With [degree = 4] and [pad = 10] the domain of
      the midline is [[5 - 10, 3 + 10]]: it starts at the top row minus [pad],
      not at the left column minus [pad], where [get_lr_bounds] puts the left
      bound of the same box. *)
Theorem calculate_midline_domain_from_row :
    let m := single_pixel_mask 8 8 5 2 in
    option_map bbox (first_region m) = Some (5, 2, 6, 3) /\
    get_lr_bounds_frame m 10 = Ret (2 - 10, 3 + 10 - 1) /\
    exists poly,
      calculate_midline m 4 10 = Ret (Some poly) /\
      domain poly = (Float64.of_Z (5 - 10), Float64.of_Z (3 + 10)) /\
      domain poly <> (Float64.of_Z (2 - 10), Float64.of_Z (3 + 10)).
Proof.
    cbv zeta. split; [reflexivity|]. split; [reflexivity|].
    eexists. split; [reflexivity|]. split; [reflexivity|].
    vm_compute. discriminate.
Qed.

End Midline.


(** ** Comparisons of floats *)

Lemma SFcompare_swap (x y : float) :
  SFcompare y x = option_map CompOpp (SFcompare x y).
Proof.
  destruct x as [sx|sx| |sx mx ex], y as [sy|sy| |sy my ey]; cbn;
    try reflexivity;
    try (destruct sx; reflexivity); try (destruct sy; reflexivity);
    try (destruct sx, sy; reflexivity).
  destruct sx, sy; cbn; try reflexivity;
    rewrite (Z.compare_antisym ex ey);
    destruct (ex ?= ey)%Z; cbn; try reflexivity;
    now rewrite (Pos.compare_cont_antisym mx my Eq).
Qed.

Lemma SFcompare_not_nan (x y : float) :
  Float64.is_nan x = false -> Float64.is_nan y = false ->
  exists c, SFcompare x y = Some c.
Proof.
  destruct x, y; cbn; intros; try discriminate; eauto.
Qed.

Lemma ltb_asym (x y : float) :
  Float64.ltb x y = true -> Float64.ltb y x = false.
Proof.
  unfold Float64.ltb, SFltb. rewrite (SFcompare_swap x y).
  destruct (SFcompare x y) as [[]|]; cbn; congruence.
Qed.

Lemma ltb_geb (x y : float) :
  Float64.ltb x y = true -> Float64.geb y x = true.
Proof.
  unfold Float64.ltb, Float64.geb, Float64.leb, SFltb, SFleb.
  destruct (SFcompare x y) as [[]|]; congruence.
Qed.

Lemma not_ltb_geb (x y : float) :
  Float64.is_nan x = false -> Float64.is_nan y = false ->
  Float64.ltb x y = false -> Float64.geb x y = true.
Proof.
  intros Hx Hy. unfold Float64.ltb, Float64.geb, Float64.leb, SFltb, SFleb.
  rewrite (SFcompare_swap x y).
  destruct (SFcompare_not_nan x y Hx Hy) as [c ->].
  destruct c; cbn; congruence.
Qed.

(** ** The swap of the segment end points *)

Ltac nat_cases :=
  repeat match goal with
         | |- context [Nat.leb ?a ?b] => destruct (Nat.leb_spec a b)
         | |- context [Nat.ltb ?a ?b] => destruct (Nat.ltb_spec a b)
         end;
  cbn [andb]; try reflexivity; try lia.

Lemma item_insert_eq (l : list float) (i : nat) (v : float) :
  (i < length l)%nat -> item (<[i := v]> l) i = v.
Proof. intros Hi. unfold item. now rewrite list_lookup_insert_eq. Qed.

Lemma item_insert_ne (l : list float) (i j : nat) (v : float) :
  i <> j -> item (<[i := v]> l) j = item l j.
Proof. intros Hij. unfold item. now rewrite list_lookup_insert_ne. Qed.

Lemma swap_body_lengths (s : segments) (i n : nat) :
  same_lengths s n -> same_lengths (swap_body s i) n.
Proof.
  unfold swap_body, same_lengths. intros (H0 & H1 & H2 & H3).
  destruct (Float64.ltb _ _); cbn; rewrite ?length_insert; auto.
Qed.

Lemma swap_body_here (s : segments) (i n : nat) :
  same_lengths s n -> (i < n)%nat ->
  quad (swap_body s i) i = ordered (quad s i).
Proof.
  intros (H0 & H1 & H2 & H3) Hi. unfold swap_body, quad, ordered.
  destruct (Float64.ltb _ _); [|reflexivity].
  cbn. rewrite !item_insert_eq by lia. reflexivity.
Qed.

Lemma swap_body_elsewhere (s : segments) (i j : nat) :
  i <> j -> quad (swap_body s i) j = quad s j.
Proof.
  intros Hij. unfold swap_body, quad.
  destruct (Float64.ltb _ _); [|reflexivity].
  cbn. now rewrite !item_insert_ne by exact Hij.
Qed.

(** The loop over the indices [a, a + len): the segments in the range are
    ordered, the others are as before *)
Lemma swap_loop_spec (len a : nat) (s : segments) (n : nat) :
  same_lengths s n -> (a + len <= n)%nat ->
  let s' := fold_left swap_body (seq a len) s in
  same_lengths s' n /\
  forall j, quad s' j =
            if (Nat.leb a j && Nat.ltb j (a + len))%bool
            then ordered (quad s j) else quad s j.
Proof.
  revert a s. induction len as [|len IH]; intros a s Hlen Hle; cbn [seq fold_left].
  - split; [exact Hlen|]. intros j. nat_cases.
  - destruct (IH (Datatypes.S a) (swap_body s a) (swap_body_lengths s a n Hlen))
      as [Hlen' Hquad]; [lia|].
    split; [exact Hlen'|]. intros j. rewrite Hquad.
    destruct (Nat.eq_dec a j) as [->|Hne].
    + rewrite (swap_body_here s j n Hlen) by lia. nat_cases.
    + rewrite (swap_body_elsewhere s a j Hne). nat_cases.
Qed.

Lemma swap_correction_spec (s : segments) (n : nat) :
  same_lengths s n ->
  same_lengths (swap_correction s) n /\
  forall j, (j < n)%nat -> quad (swap_correction s) j = ordered (quad s j).
Proof.
  intros Hlen. pose proof Hlen as (H0 & H1 & H2 & H3).
  unfold swap_correction. rewrite H0, H1, H2, H3, !Nat.min_id.
  destruct (swap_loop_spec n 0 s n Hlen) as [Hlen' Hquad]; [lia|].
  split; [exact Hlen'|]. intros j Hj. rewrite Hquad. nat_cases.
Qed.

(** C6: after the swap loop over [n] segments, segment [i] has its end points
    exchanged, both coordinates, exactly when its first end point was lower
    ([y0 < y1]) and is unchanged otherwise; the first end point is then never
    lower than the second, and its vertical coordinate is [>=] the other's
    whenever the two coordinates are numbers (a comparison with NaN is false
    in either direction, so such a segment stays as it is). *)
Theorem swap_correction_ordered (s : segments) (n i : nat) :
  length (xs0 s) = n -> length (xs1 s) = n ->
  length (ys0 s) = n -> length (ys1 s) = n ->
  (i < n)%nat ->
  let s' := swap_correction s in
  (Float64.ltb (item (ys0 s) i) (item (ys1 s) i) = true ->
     item (xs0 s') i = item (xs1 s) i /\ item (xs1 s') i = item (xs0 s) i /\
     item (ys0 s') i = item (ys1 s) i /\ item (ys1 s') i = item (ys0 s) i) /\
  (Float64.ltb (item (ys0 s) i) (item (ys1 s) i) = false ->
     item (xs0 s') i = item (xs0 s) i /\ item (xs1 s') i = item (xs1 s) i /\
     item (ys0 s') i = item (ys0 s) i /\ item (ys1 s') i = item (ys1 s) i) /\
  Float64.ltb (item (ys0 s') i) (item (ys1 s') i) = false /\
  (Float64.is_nan (item (ys0 s) i) = false ->
   Float64.is_nan (item (ys1 s) i) = false ->
   Float64.geb (item (ys0 s') i) (item (ys1 s') i) = true).
Proof.
  intros H0 H1 H2 H3 Hi s'.
  destruct (swap_correction_spec s n) as [_ Hquad]; [repeat split; assumption|].
  specialize (Hquad i Hi). fold s' in Hquad. unfold quad, ordered in Hquad.
  destruct (Float64.ltb (item (ys0 s) i) (item (ys1 s) i)) eqn:Hlt;
    injection Hquad as -> -> -> ->.
  - repeat split; try discriminate; auto using ltb_asym, ltb_geb.
  - repeat split; try discriminate; auto using not_ltb_geb.
Qed.

(** C6 at two segments: the first is lower at its first end point and is
    swapped, the second is not and stays *)
Lemma swap_correction_ordered_witness :
  let s := {| xs0 := floats [1; 2]; xs1 := floats [3; 4];
              ys0 := floats [0; 5]; ys1 := floats [1; 2] |} in
  Float64.geb (item (ys0 (swap_correction s)) 0) (item (ys1 (swap_correction s)) 0)
  = true.
Proof.
  intros s.
  apply (swap_correction_ordered s 2 0 eq_refl eq_refl eq_refl eq_refl);
    [lia | reflexivity | reflexivity].
Defined.

(** ** Shapes of the sampled arrays *)

Lemma linspace_row_length (start stop : list float) (div : Z) (z : bool) (i : Z) :
  length (linspace_row start stop div z i) = Nat.min (length start) (length stop).
Proof. unfold linspace_row. apply length_zip_with. Qed.

Lemma np_linspace_shape (start stop : list float) (t : Z) (n : nat) :
  length start = n -> length stop = n -> 0 <= t ->
  exists rows, np_linspace start stop (PyInt t) = Ret rows /\
               length rows = Z.to_nat t /\
               Forall (fun row => length row = n) rows.
Proof.
  intros Hstart Hstop Ht. unfold np_linspace. cbn [operator_index obind].
  destruct (t <? 0) eqn:Hneg; [lia|].
  eexists. split; [reflexivity|].
  assert (Hrows : forall z,
             Forall (fun row => length row = n)
               (map (fun i => linspace_row start stop (t - 1) z (Z.of_nat i))
                    (seq 0 (Z.to_nat t)))).
  { intros z. apply List.Forall_forall. intros row Hin.
    apply in_map_iff in Hin as (i & <- & _).
    rewrite linspace_row_length, Hstart, Hstop. apply Nat.min_id. }
  destruct (1 <? t).
  - rewrite length_insert, length_map, length_seq. split; [reflexivity|].
    apply Forall_insert; [apply Hrows | exact Hstop].
  - rewrite length_map, length_seq. split; [reflexivity | apply Hrows].
Qed.

Lemma np_linspace_negative (start stop : list float) (t : Z) :
  t < 0 -> np_linspace start stop (PyInt t) = Raise ValueError.
Proof.
  intros Ht. unfold np_linspace. cbn [operator_index obind].
  destruct (t <? 0) eqn:Hneg; [reflexivity | lia].
Qed.

Lemma np_linspace_float (start stop : list float) (f : float) :
  np_linspace start stop (PyFloat f) = Raise TypeError.
Proof. reflexivity. Qed.

Lemma np_linspace1_length (a b : float) (n : Z) :
  0 <= n ->
  exists xs, np_linspace1 a b (PyInt n) = Ret xs /\ length xs = Z.to_nat n.
Proof.
  intros Hn. unfold np_linspace1.
  destruct (np_linspace_shape [a] [b] n 1 eq_refl eq_refl Hn) as (rows & -> & Hlen & _).
  cbn [obind]. eexists. split; [reflexivity|]. now rewrite length_map.
Qed.

Lemma poly_linspace_length (p : Polynomial) (n : Z) :
  0 <= n ->
  exists xs ys, poly_linspace p (PyInt n) = Ret (xs, ys) /\
                length xs = Z.to_nat n /\ length ys = Z.to_nat n.
Proof.
  intros Hn. unfold poly_linspace.
  destruct (np_linspace1_length (fst (domain p)) (snd (domain p)) n Hn)
    as (xs & -> & Hlen).
  cbn [obind]. exists xs, (map (poly_call p) xs).
  split; [reflexivity|]. now rewrite length_map.
Qed.

Lemma map_coordinates2_shape `{Numerics} (order : Z) (fl : image)
    (all_xs all_ys : list (list float)) (n : nat) :
  Forall (fun row => length row = n) all_xs ->
  Forall (fun row => length row = n) all_ys ->
  Forall (fun row => length row = n) (map_coordinates2 order fl all_xs all_ys).
Proof.
  unfold map_coordinates2. intros Hxs. revert all_ys.
  induction Hxs as [|xs all_xs Hx _ IH]; intros all_ys Hys; [constructor|].
  destruct Hys as [|ys all_ys Hy Hys]; [constructor|].
  cbn. constructor; [|now apply IH].
  unfold map_coordinates. rewrite length_zip_with, Hx, Hy. apply Nat.min_id.
Qed.

Lemma np_average_axis0_length (a : list (list float)) (w : list float) (n : nat)
    (profile : list float) :
  np_average_axis0 a w n = Ret profile -> length profile = n.
Proof.
  unfold np_average_axis0. destruct (_ && _)%bool; [discriminate|].
  intros [= <-]. now rewrite length_map, length_seq.
Qed.

Section Sampler.
Context `{Numerics}.

Lemma normal_segments_lengths (p : Polynomial) (xs ys : list float)
    (thickness : pynum) (n : nat) :
  length xs = n -> length ys = n ->
  same_lengths (normal_segments p xs ys thickness) n.
Proof.
  intros Hxs Hys. unfold normal_segments, same_lengths. cbn.
  rewrite !length_zip_with, !length_map, Hxs, Hys, Nat.min_id. auto.
Qed.

(** In [measure_under_midline] the swap runs on [n_points] segments *)
Lemma swapped_segments_lengths (p : Polynomial) (xs ys : list float)
    (thickness : pynum) (n : nat) :
  length xs = n -> length ys = n ->
  same_lengths (swap_correction (normal_segments p xs ys thickness)) n.
Proof.
  intros Hxs Hys.
  apply swap_correction_spec, normal_segments_lengths; assumption.
Qed.

(** The zero-thickness sampling of a midline succeeds with [n_points] values *)
Lemma thin_sampling (fl : image) (p : Polynomial) (n_points : Z)
    (thickness : pynum) (order : Z) (norm_scale : float) (flatten : bool) :
  0 <= n_points -> pynum_is_zero thickness = true ->
  exists v,
    measure_under_midline_body fl (Some p) n_points thickness order norm_scale flatten
    = Ret (Arr1 v) /\ length v = Z.to_nat n_points.
Proof.
  intros Hn Hzero. unfold measure_under_midline_body. rewrite Hzero.
  destruct (poly_linspace_length p n_points Hn) as (xs & ys & Hlin & Hxs & Hys).
  cbn [deref obind]. rewrite Hlin. cbn [obind].
  eexists. split; [reflexivity|].
  unfold map_coordinates. rewrite length_zip_with, Hxs, Hys. apply Nat.min_id.
Qed.

(** The band of a positive integer thickness [t] has [t] rows of [n_points]
    values *)
Lemma band_sampling (fl : image) (p : Polynomial) (n_points t : Z)
    (order : Z) (norm_scale : float) :
  0 <= n_points -> 0 < t ->
  exists rows,
    measure_under_midline_body fl (Some p) n_points (PyInt t) order norm_scale false
    = Ret (Arr2 rows) /\
    length rows = Z.to_nat t /\
    Forall (fun row => length row = Z.to_nat n_points) rows.
Proof.
  intros Hn Ht. unfold measure_under_midline_body.
  assert (Hnz : pynum_is_zero (PyInt t) = false) by (cbn; lia).
  rewrite Hnz.
  destruct (poly_linspace_length p n_points Hn) as (xs & ys & Hlin & Hxs & Hys).
  cbn [deref obind]. rewrite Hlin. cbn [obind].
  destruct (swapped_segments_lengths p xs ys (PyInt t) _ Hxs Hys)
    as (H0 & H1 & H2 & H3).
  destruct (np_linspace_shape _ _ t _ H0 H1) as (all_xs & -> & Hlx & Hrx); [lia|].
  destruct (np_linspace_shape _ _ t _ H2 H3) as (all_ys & -> & Hly & Hry); [lia|].
  cbn [obind]. eexists. split; [reflexivity|]. split.
  - unfold map_coordinates2. rewrite length_zip_with, Hlx, Hly. apply Nat.min_id.
  - now apply map_coordinates2_shape.
Qed.

(** When the flattened sampling of a band returns, it returns [n_points]
    values *)
Lemma flat_sampling (fl : image) (mid : option Polynomial) (n_points : Z)
    (thickness : pynum) (order : Z) (norm_scale : float) (a : ndarray) :
  pynum_is_zero thickness = false ->
  measure_under_midline_body fl mid n_points thickness order norm_scale true = Ret a ->
  exists v, a = Arr1 v /\ length v = Z.to_nat n_points.
Proof.
  intros Hnz. unfold measure_under_midline_body. rewrite Hnz.
  destruct (deref mid) as [p|]; [|discriminate]. cbn [obind].
  destruct (poly_linspace p (PyInt n_points)) as [[xs ys]|]; [|discriminate].
  cbn [obind].
  destruct (np_linspace (xs0 _) _ _) as [all_xs|]; [|discriminate]. cbn [obind].
  destruct (np_linspace (ys0 _) _ _) as [all_ys|]; [|discriminate]. cbn [obind].
  destruct (np_linspace1 _ _ _) as [us|]; [|discriminate]. cbn [obind].
  destruct (np_average_axis0 _ _ _) as [profile|] eqn:Havg; [|discriminate].
  cbn [obind]. intros [= <-]. exists profile. split; [reflexivity|].
  eapply np_average_axis0_length, Havg.
Qed.

(** A negative integer thickness makes the sampling fail *)
Lemma negative_thickness_raises (fl : image) (p : Polynomial) (n_points t : Z)
    (order : Z) (norm_scale : float) (flatten : bool) :
  0 <= n_points -> t < 0 ->
  measure_under_midline_body fl (Some p) n_points (PyInt t) order norm_scale flatten
  = Raise ValueError.
Proof.
  intros Hn Ht. unfold measure_under_midline_body.
  assert (Hnz : pynum_is_zero (PyInt t) = false) by (cbn; lia).
  rewrite Hnz.
  destruct (poly_linspace_length p n_points Hn) as (xs & ys & Hlin & _).
  cbn [deref obind]. rewrite Hlin. cbn [obind].
  now rewrite np_linspace_negative.
Qed.

(** So does a thickness that is a float and not zero: [np.linspace] takes an
    integer number of samples *)
Lemma float_thickness_raises (fl : image) (p : Polynomial) (n_points : Z)
    (f : float) (order : Z) (norm_scale : float) (flatten : bool) :
  0 <= n_points -> Float64.eqb f Float64.zero = false ->
  measure_under_midline_body fl (Some p) n_points (PyFloat f) order norm_scale flatten
  = Raise TypeError.
Proof.
  intros Hn Hf. unfold measure_under_midline_body. cbn [pynum_is_zero]. rewrite Hf.
  destruct (poly_linspace_length p n_points Hn) as (xs & ys & Hlin & _).
  cbn [deref obind]. rewrite Hlin. cbn [obind].
  now rewrite np_linspace_float.
Qed.

Lemma missing_midline_raises (fl : image) (n_points : Z) (thickness : pynum)
    (order : Z) (norm_scale : float) (flatten : bool) :
  measure_under_midline_body fl None n_points thickness order norm_scale flatten
  = Raise AttributeError.
Proof.
  unfold measure_under_midline_body. now destruct (pynum_is_zero thickness).
Qed.

Lemma np_zeros_row_shape (n : Z) :
  0 <= n ->
  np_zeros_row n = Ret (Arr2 [repeat Float64.zero (Z.to_nat n)]) /\
  shape (Arr2 [repeat Float64.zero (Z.to_nat n)]) = [1%nat; Z.to_nat n] /\
  size (Arr2 [repeat Float64.zero (Z.to_nat n)]) = Z.to_nat n.
Proof.
  intros Hn. unfold np_zeros_row. destruct (n <? 0) eqn:Hneg; [lia|].
  cbn. rewrite app_nil_r, repeat_length. auto.
Qed.

Lemma measure_under_midline_returns (fl : image) (mid : option Polynomial)
    (n_points : Z) (thickness : pynum) (order : Z) (norm_scale : float)
    (flatten : bool) :
  0 <= n_points ->
  exists a, measure_under_midline fl mid n_points thickness order norm_scale flatten
            = Ret a.
Proof.
  intros Hn. unfold measure_under_midline.
  destruct (np_zeros_row_shape n_points Hn) as (Hzeros & _).
  destruct (measure_under_midline_body _ _ _ _ _ _ _); cbn [try_except]; eauto.
Qed.

End Sampler.

Section SamplerClaims.
Context `{Numerics}.

(** C2, as the code has it: for a non-negative [n_points] the sampler always
    returns and never raises; whenever its [try] block raises, whatever the
    exception, and in particular for a missing midline, the result is the
    array [np.zeros((1, n_points))]: one row of [n_points] zeros, of shape
    [(1, n_points)] *)
Theorem measure_under_midline_fallback (fl : image) (mid : option Polynomial)
    (n_points : Z) (thickness : pynum) (order : Z) (norm_scale : float)
    (flatten : bool) :
  0 <= n_points ->
  let fallback := Arr2 [repeat Float64.zero (Z.to_nat n_points)] in
  let r := measure_under_midline fl mid n_points thickness order norm_scale flatten in
  (exists a, r = Ret a) /\
  (raises (measure_under_midline_body fl mid n_points thickness order norm_scale flatten)
   -> r = Ret fallback) /\
  (mid = None -> r = Ret fallback) /\
  shape fallback = [1%nat; Z.to_nat n_points].
Proof.
  intros Hn fallback r. subst fallback r. unfold measure_under_midline.
  destruct (np_zeros_row_shape n_points Hn) as (Hzeros & Hshape & _).
  repeat split.
  - now apply measure_under_midline_returns.
  - intros [e ->]. exact Hzeros.
  - intros ->. rewrite missing_midline_raises. exact Hzeros.
  - exact Hshape.
Qed.

(** The shapes of the result for a midline and a non-negative [n_points]:
    with zero thickness a 1-D array of [n_points] values; with a thickness
    that is not zero and [flatten], [n_points] elements; without [flatten] and
    for a thickness that is a positive integer [t], the band of shape
    [(t, n_points)]; for a negative integer the sampling fails and the result
    is the row of zeros of shape [(1, n_points)] *)
Lemma measure_under_midline_shape (fl : image) (p : Polynomial)
    (n_points : Z) (thickness : pynum) (order : Z) (norm_scale : float)
    (flatten : bool) :
  0 <= n_points ->
  let r := measure_under_midline fl (Some p) n_points thickness order norm_scale
             flatten in
  (pynum_is_zero thickness = true ->
     exists v, r = Ret (Arr1 v) /\ length v = Z.to_nat n_points) /\
  (pynum_is_zero thickness = false -> flatten = true ->
     exists a, r = Ret a /\ size a = Z.to_nat n_points) /\
  (forall t, thickness = PyInt t -> 0 < t -> flatten = false ->
     exists rows, r = Ret (Arr2 rows) /\
                  shape (Arr2 rows) = [Z.to_nat t; Z.to_nat n_points] /\
                  Forall (fun row => length row = Z.to_nat n_points) rows) /\
  (forall t, thickness = PyInt t -> t < 0 ->
     r = Ret (Arr2 [repeat Float64.zero (Z.to_nat n_points)])).
Proof.
  intros Hn r. subst r. unfold measure_under_midline.
  destruct (np_zeros_row_shape n_points Hn) as (Hzeros & _ & Hsize).
  repeat split.
  - intros Hzero.
    destruct (thin_sampling fl p n_points thickness order norm_scale flatten Hn Hzero)
      as (v & -> & Hv).
    exists v. split; [reflexivity | exact Hv].
  - intros Hnz ->.
    destruct (measure_under_midline_body _ _ _ _ _ _ _) as [a|e] eqn:Hbody;
      cbn [try_except].
    + destruct (flat_sampling _ _ _ _ _ _ _ Hnz Hbody) as (v & -> & Hv).
      exists (Arr1 v). split; [reflexivity | exact Hv].
    + eexists. split; [exact Hzeros | exact Hsize].
  - intros t -> Ht ->.
    destruct (band_sampling fl p n_points t order norm_scale Hn Ht)
      as (rows & -> & Hrows & Hcols).
    exists rows. split; [reflexivity|]. split; [|exact Hcols].
    cbn [shape]. rewrite Hrows. destruct Hcols as [|row rows Hrow _].
    + cbn in Hrows. lia.
    + cbn. now rewrite Hrow.
  - intros t -> Ht. now rewrite negative_thickness_raises.
Qed.

(** C4, the code at the thicknesses 2.5 and 3.0 without [flatten], for
    [n_points = 3] and any image and midline.  [thickness], a float by the
    signature of the function, is handed to [np.linspace] as the number of
    samples as it is: nothing rounds it to an integer.  [np.linspace] refuses
    a float there, the bare [except] takes the [TypeError], and the result is
    the row of zeros of shape [(1, 3)] and not a band of 2 or of 3 rows.  The
    integer thickness 3 gives the band of shape [(3, 3)]. *)
Theorem measure_under_midline_float_thickness (fl : image) (p : Polynomial)
    (order : Z) (norm_scale : float) :
  let sample := fun thickness =>
    measure_under_midline fl (Some p) 3 thickness order norm_scale false in
  let zeros := Arr2 [floats [0; 0; 0]] in
  measure_under_midline_body fl (Some p) 3 (PyFloat (Float64.ratio 5 2)) order
    norm_scale false = Raise TypeError /\
  sample (PyFloat (Float64.ratio 5 2)) = Ret zeros /\
  sample (PyFloat (Float64.of_Z 3)) = Ret zeros /\
  shape zeros = [1%nat; 3%nat] /\
  (forall rows : nat, In rows [2%nat; 3%nat] -> shape zeros <> [rows; 3%nat]) /\
  exists rows, sample (PyInt 3) = Ret (Arr2 rows) /\
               shape (Arr2 rows) = [3%nat; 3%nat].
Proof.
  cbv zeta. unfold measure_under_midline.
  assert (Hn : 0 <= 3) by lia.
  pose proof (float_thickness_raises fl p 3 (Float64.ratio 5 2) order norm_scale false
                Hn eq_refl) as Hhalf.
  pose proof (float_thickness_raises fl p 3 (Float64.of_Z 3) order norm_scale false
                Hn eq_refl) as Hwhole.
  rewrite Hhalf, Hwhole.
  split; [reflexivity|]. split; [reflexivity|]. split; [reflexivity|].
  split; [reflexivity|]. split.
  - intros rows [<-|[<-|[]]]; discriminate.
  - destruct (band_sampling fl p 3 3 order norm_scale Hn ltac:(lia))
      as (rows & -> & Hrows & Hcols).
    exists rows. split; [reflexivity|]. cbn [shape]. rewrite Hrows.
    destruct Hcols as [|row rows Hrow _]; [discriminate Hrows|].
    cbn. now rewrite Hrow.
Qed.

End SamplerClaims.

(** C2 as the specification has it fails: for a missing midline and
    [n_points = 3] the [try] block raises and the sampler returns the 2-D
    array [[[0, 0, 0]]] of shape [(1, 3)], not a 1-D array of 3 values, which
    is what it returns at the same [n_points] when the sampling succeeds *)
Lemma fallback_is_not_one_dimensional :
  let sample := fun mid =>
    @measure_under_midline plain_numerics (ramp 6 6) mid 3 (PyInt 0) 1
      (Float64.of_Z 1) true in
  raises (@measure_under_midline_body plain_numerics (ramp 6 6) None 3 (PyInt 0) 1
            (Float64.of_Z 1) true) /\
  sample None = Ret (Arr2 [floats [0; 0; 0]]) /\
  shape (Arr2 [floats [0; 0; 0]]) = [1%nat; 3%nat] /\
  ~ (exists v, sample None = Ret (Arr1 v) /\ length v = 3%nat) /\
  (exists v, sample (Some (line 2 1 0 4)) = Ret (Arr1 v) /\ shape (Arr1 v) = [3%nat]).
Proof.
  cbv zeta. split; [eexists; reflexivity|].
  split; [reflexivity|]. split; [reflexivity|]. split.
  - intros (v & Hv & _). vm_compute in Hv. discriminate.
  - eexists. split; reflexivity.
Qed.

(** C2 at a missing midline and [n_points = 3] *)
Lemma measure_under_midline_fallback_witness :
  @measure_under_midline plain_numerics (ramp 6 6) None 3 (PyInt 0) 1
    (Float64.of_Z 1) true
  = Ret (Arr2 [repeat Float64.zero 3]).
Proof.
  refine (proj1 (proj2 (proj2
    (@measure_under_midline_fallback plain_numerics (ramp 6 6) None 3 (PyInt 0) 1
       (Float64.of_Z 1) true _))) eq_refl).
  lia.
Defined.

(** ** Loops that may raise *)

Lemma for_each_classify {X S : Type} (body : X -> S -> outcome S)
    (I : S -> Prop) (bad : X -> option exn) (l : list X) :
  (forall x s, In x l -> I s ->
     match bad x with
     | Some e => body x s = Raise e
     | None => exists s', body x s = Ret s' /\ I s'
     end) ->
  forall s, I s ->
    match first_error bad l with
    | Some e => for_each l body s = Raise e
    | None => exists s', for_each l body s = Ret s' /\ I s'
    end.
Proof.
  induction l as [|x l IH]; intros Hbody s Hs; cbn [first_error for_each].
  - eauto.
  - pose proof (Hbody x s (or_introl eq_refl) Hs) as Hx.
    destruct (bad x) as [e|].
    + now rewrite Hx.
    + destruct Hx as (s' & -> & Hs'). cbn [obind].
      apply IH; [|exact Hs']. intros y t Hy. apply Hbody. now right.
Qed.

Lemma first_error_Some {X : Type} (bad : X -> option exn) (l : list X) (e : exn) :
  first_error bad l = Some e -> exists x, In x l /\ bad x = Some e.
Proof.
  induction l as [|x l IH]; cbn; [discriminate|].
  destruct (bad x) as [e'|] eqn:Hx.
  - intros [= <-]. eauto.
  - intros Hl. destruct (IH Hl) as (y & Hy & Hbad). eauto.
Qed.

Lemma first_error_None {X : Type} (bad : X -> option exn) (l : list X) :
  first_error bad l = None -> forall x, In x l -> bad x = None.
Proof.
  induction l as [|x l IH]; cbn; [tauto|].
  destruct (bad x) as [e'|] eqn:Hx; [discriminate|].
  intros Hl y [<-|Hy]; auto.
Qed.

Lemma in_labels {A : Type} (d : DataArray A) (a : nat) (w : string) (p : Z) :
  In (a, w, p) (labels d) <->
  (a < animals d)%nat /\ In w (wavelengths d) /\ In p (pairs d).
Proof.
  unfold labels. rewrite in_flat_map. split.
  - intros (a' & Ha' & Hin). apply in_flat_map in Hin as (w' & Hw' & Hin).
    apply in_map_iff in Hin as (p' & [= -> -> ->] & Hp').
    apply in_seq in Ha'. repeat split; [lia | assumption | assumption].
  - intros (Ha & Hw & Hp). exists a. split; [apply in_seq; lia|].
    apply in_flat_map. exists w. split; [exact Hw|].
    apply in_map_iff. eauto.
Qed.

Lemma has_label_In {K : Type} `{EqDecision K} (k : K) (l : list K) :
  has_label k l = true <-> In k l.
Proof.
  unfold has_label. rewrite bool_decide_eq_true. apply list_elem_of_In.
Qed.

Lemma sel_Ret {A : Type} (d : DataArray A) (a : nat) (w : string) (p : Z) :
  (a < animals d)%nat -> In w (wavelengths d) -> In p (pairs d) ->
  sel d a w p = Ret (frame d a w p).
Proof.
  intros Ha Hw Hp. unfold sel.
  apply Nat.ltb_lt in Ha. apply has_label_In in Hw. apply has_label_In in Hp.
  now rewrite Ha, Hw, Hp.
Qed.

(** ** Pose normalisation *)

Section PoseClaims.
Context `{Numerics}.

(** One turn of the loop raises exactly for a reference mask without object *)
Lemma center_and_rotate_frame_classify (fl_images : DataArray image)
    (seg_images : DataArray mask) (reference_wavelength : string) (cy cx : Z)
    (lbl : nat * string * Z) (st : DataArray image * DataArray mask) :
  animals seg_images = animals fl_images ->
  wavelengths seg_images = wavelengths fl_images ->
  pairs seg_images = pairs fl_images ->
  In reference_wavelength (wavelengths fl_images) ->
  In lbl (labels fl_images) -> same_labels seg_images st ->
  match reference_error seg_images reference_wavelength lbl with
  | Some e =>
      center_and_rotate_frame fl_images seg_images reference_wavelength cy cx lbl st
      = Raise e
  | None =>
      exists st',
        center_and_rotate_frame fl_images seg_images reference_wavelength cy cx lbl st
        = Ret st' /\ same_labels seg_images st'
  end.
Proof.
  intros Ha Hw Hp Href Hlbl (Ia & Iw & Ip).
  destruct lbl as [[a w] p], st as [fl' seg']. cbn [snd] in Ia, Iw, Ip.
  apply in_labels in Hlbl as (Hla & Hlw & Hlp).
  unfold center_and_rotate_frame, reference_error.
  rewrite (sel_Ret seg_images) by (rewrite ?Ha, ?Hw, ?Hp; assumption).
  rewrite (sel_Ret fl_images) by assumption.
  rewrite (sel_Ret seg') by (rewrite ?Ia, ?Iw, ?Ip, ?Ha, ?Hw, ?Hp; assumption).
  cbn [obind]. unfold regionprops_0.
  destruct (concat (frame seg_images a reference_wavelength p)); [reflexivity|].
  destruct (first_region (frame seg_images a reference_wavelength p)) as [rp|].
  - cbn. eexists. split; [reflexivity|]. repeat split; assumption.
  - reflexivity.
Qed.

(** What [reference_error] says of the mask it marks *)
Lemma reference_error_Some (seg_images : DataArray mask)
    (reference_wavelength : string) (a : nat) (w : string) (p : Z) (e : exn) :
  reference_error seg_images reference_wavelength (a, w, p) = Some e ->
  (forall row col,
     pixel (frame seg_images a reference_wavelength p) row col = false) /\
  ((e = NoBinaryObjects a w p /\
    concat (frame seg_images a reference_wavelength p) <> []) \/
   (e = ValueError /\ concat (frame seg_images a reference_wavelength p) = [])).
Proof.
  cbn [reference_error].
  destruct (concat (frame seg_images a reference_wavelength p)) eqn:Hpix.
  - intros [= <-]. split; [now apply no_pixel_background | auto].
  - destruct (first_region _) eqn:Hreg; [discriminate|]. intros [= <-].
    split; [now apply first_region_None_iff|]. left. split; [reflexivity | discriminate].
Qed.

Lemma reference_error_None (seg_images : DataArray mask)
    (reference_wavelength : string) (a : nat) (w : string) (p : Z) :
  reference_error seg_images reference_wavelength (a, w, p) = None ->
  ~ (forall row col,
       pixel (frame seg_images a reference_wavelength p) row col = false).
Proof.
  cbn [reference_error]. intros Hnone Hempty.
  rewrite (first_region_empty _ Hempty) in Hnone.
  destruct (concat _); discriminate.
Qed.

(** C5: on stacks with the same labels, the reference wavelength among them,
    [center_and_rotate_pharynxes] raises a [ValueError] exactly when the
    reference mask of some animal and pair has no foreground pixel.  The
    error is raised for such a mask, and it is the one with the message "No
    binary objects found" unless the mask has no pixel at all, where
    [regionprops] raises its own [ValueError] first; on stacks whose reference
    masks all have a pixel the "No binary objects found" error is raised
    exactly when some reference mask has no foreground.  No other exception
    is raised, and when every reference mask has foreground the call returns
    the two rotated stacks. *)
Theorem center_and_rotate_pharynxes_no_object (fl_images : DataArray image)
    (seg_images : DataArray mask) (reference_wavelength : string) :
  animals seg_images = animals fl_images ->
  wavelengths seg_images = wavelengths fl_images ->
  pairs seg_images = pairs fl_images ->
  In reference_wavelength (wavelengths fl_images) ->
  let r := center_and_rotate_pharynxes fl_images seg_images reference_wavelength in
  let reference := fun a p => frame seg_images a reference_wavelength p in
  let empty_reference := fun a p =>
    forall row col, pixel (reference a p) row col = false in
  let some_empty :=
    exists a p, (a < animals fl_images)%nat /\ In p (pairs fl_images) /\
                empty_reference a p in
  (some_empty <-> (exists e, r = Raise e /\ is_ValueError e)) /\
  (forall e, r = Raise e ->
     exists a w p, (a < animals fl_images)%nat /\ In p (pairs fl_images) /\
                   empty_reference a p /\
                   ((e = NoBinaryObjects a w p /\ concat (reference a p) <> []) \/
                    (e = ValueError /\ concat (reference a p) = []))) /\
  ((forall a p, (a < animals fl_images)%nat -> In p (pairs fl_images) ->
                concat (reference a p) <> []) ->
   (some_empty <-> (exists a w p, r = Raise (NoBinaryObjects a w p)))) /\
  ((forall a p, (a < animals fl_images)%nat -> In p (pairs fl_images) ->
                ~ empty_reference a p) ->
   exists out, r = Ret out).
Proof.
  intros Ha Hw Hp Href r reference empty_reference some_empty.
  pose proof (for_each_classify
    (center_and_rotate_frame fl_images seg_images reference_wavelength
       (Z.of_nat (y_size fl_images) / 2) (Z.of_nat (x_size fl_images) / 2))
    (same_labels seg_images)
    (reference_error seg_images reference_wavelength)
    (labels fl_images)
    (fun lbl st Hlbl Hst =>
       center_and_rotate_frame_classify fl_images seg_images reference_wavelength
         _ _ lbl st Ha Hw Hp Href Hlbl Hst)
    (fl_images, seg_images) (conj eq_refl (conj eq_refl eq_refl))) as Hr.
  fold (center_and_rotate_pharynxes fl_images seg_images reference_wavelength) in Hr.
  fold r in Hr.
  destruct (first_error _ _) as [e|] eqn:Hfirst.
  - destruct (first_error_Some _ _ _ Hfirst) as ([[a w] p] & Hlbl & Hbad).
    apply in_labels in Hlbl as (Hla & _ & Hlp).
    destruct (reference_error_Some _ _ _ _ _ _ Hbad) as [Hempty Hkind].
    fold (reference a p) in Hempty, Hkind.
    assert (Hsome : some_empty) by (exists a, p; auto).
    split; [|split; [|split]].
    + split; [|auto]. intros _. exists e. split; [exact Hr|].
      destruct Hkind as [[-> _]|[-> _]]; [right; eauto | now left].
    + intros e' He'. rewrite Hr in He'. injection He' as <-. eauto 10.
    + intros Hpixels. split; [|auto]. intros _.
      destruct Hkind as [[-> _]|[_ Hnil]]; [eauto|].
      destruct (Hpixels a p Hla Hlp Hnil).
    + intros Hall. destruct (Hall a p Hla Hlp Hempty).
  - destruct Hr as (out & Hr & _).
    assert (Hnone : ~ some_empty).
    { intros (a & p & Hla & Hlp & Hempty).
      apply (reference_error_None seg_images reference_wavelength a
               reference_wavelength p); [|exact Hempty].
      apply (first_error_None _ _ Hfirst). apply in_labels. auto. }
    split; [|split; [|split]].
    + split; [tauto|]. intros (e & He & _). congruence.
    + intros e He. congruence.
    + intros _. split; [tauto|]. intros (a & w & p & Hraise). congruence.
    + eauto.
Qed.

End PoseClaims.

(** C5 at a stack of one animal, one pair and two channels whose masks are
    all background *)
Lemma center_and_rotate_pharynxes_no_object_witness :
  exists a w p,
    @center_and_rotate_pharynxes plain_numerics
      (one_animal two_channels (fun _ => ramp 6 6))
      (one_animal two_channels (fun _ => [[false; false]; [false; false]]))
      "410"
    = Raise (NoBinaryObjects a w p).
Proof.
  refine (proj1 (proj1 (proj2 (proj2
    (@center_and_rotate_pharynxes_no_object plain_numerics
       (one_animal two_channels (fun _ => ramp 6 6))
       (one_animal two_channels (fun _ => [[false; false]; [false; false]]))
       "410" eq_refl eq_refl eq_refl _))) _) _).
  - left. reflexivity.
  - intros a p _ _. discriminate.
  - exists 0%nat, 0. split; [cbn; lia|]. split; [left; reflexivity|].
    apply background_pixels. reflexivity.
Defined.

(** ** Batch sampling *)

Lemma for_each_calls {X C : Type} (g : X -> outcome C) (l : list X) (u : unit) :
  for_each l (fun x _ => let! _ := g x in Ret tt) tt = Ret u ->
  forall x, In x l -> exists c, g x = Ret c.
Proof.
  induction l as [|y l IH]; cbn [for_each]; [intros _ x []|].
  destruct (g y) as [c|e] eqn:Hy; cbn [obind]; [|discriminate].
  intros Hl x [<-|Hx]; eauto.
Qed.

Lemma apply_ufunc_frame {A B C : Type} (f : A -> B -> outcome C) (dflt : C)
    (x : DataArray A) (y : DataArray B) (out : DataArray C) :
  apply_ufunc f dflt x y = Ret out ->
  forall a w p, In (a, w, p) (labels x) ->
    f (frame x a w p) (frame y a w p) = Ret (frame out a w p).
Proof.
  unfold apply_ufunc. destruct (same_coords x y); cbn [negb]; [|discriminate].
  destruct (labels x) as [|lbl0 l0] eqn:Hl; [discriminate|]. rewrite <- Hl.
  destruct (for_each _ _ _) as [u|e] eqn:Hloop; cbn [obind]; [|discriminate].
  intros [= <-] a w p Hin. cbn [frame].
  destruct (for_each_calls (fun lbl => f (at_label x lbl) (at_label y lbl))
              (labels x) u Hloop (a, w, p) Hin) as [c Hc].
  unfold at_label in Hc. cbn [fst snd] in Hc. now rewrite Hc.
Qed.

Lemma apply_ufunc_returns {A B C : Type} (f : A -> B -> outcome C) (dflt : C)
    (x : DataArray A) (y : DataArray B) :
  same_coords x y = true -> labels x <> [] ->
  (forall a b, exists c, f a b = Ret c) ->
  exists out, apply_ufunc f dflt x y = Ret out.
Proof.
  intros Hsame Hlabels Hf. unfold apply_ufunc. rewrite Hsame. cbn [negb].
  destruct (labels x) as [|lbl0 l0] eqn:Hl; [congruence|]. rewrite <- Hl.
  assert (Hloop : forall l : list (nat * string * Z),
            for_each l
              (fun lbl _ => let! _ := f (at_label x lbl) (at_label y lbl) in Ret tt) tt
            = Ret tt).
  { induction l as [|lbl l IH]; cbn [for_each]; [reflexivity|].
    destruct (Hf (at_label x lbl) (at_label y lbl)) as [c ->]. exact IH. }
  rewrite Hloop. cbn [obind]. eauto.
Qed.

Section BatchClaims.
Context `{Numerics}.

Lemma sample_frame_returns (n_points : Z) (thickness : pynum) (order : Z)
    (fl : image) (mid : option Polynomial) :
  0 <= n_points -> exists v, sample_frame n_points thickness order fl mid = Ret v.
Proof.
  intros Hn. unfold sample_frame.
  destruct (measure_under_midline_returns fl mid n_points thickness order
              (Float64.of_Z 1) true Hn) as [a ->].
  cbn [obind]. eauto.
Qed.

(** The caller's midlines after the call: with [frame_specific] they are as
    before, without it channel 470 holds the midlines of channel 410 *)
Lemma midlines_after_call (fl_stack : DataArray image)
    (midlines : DataArray (option Polynomial)) (n_points : Z)
    (frame_specific : bool) (order : Z) (thickness : pynum) (flatten : bool) :
  In "410"%string (wavelengths midlines) -> In "470"%string (wavelengths midlines) ->
  forall a w p,
    frame (fst (measure_under_midlines fl_stack midlines n_points frame_specific
                  order thickness flatten)) a w p
    = if (negb frame_specific && String.eqb w "470")%bool
      then frame midlines a "410" p else frame midlines a w p.
Proof.
  intros H410 H470 a w p. unfold measure_under_midlines, assign_wavelength.
  apply has_label_In in H410. apply has_label_In in H470.
  destruct frame_specific; cbn [negb andb]; [reflexivity|].
  rewrite H410, H470. cbn [negb fst frame]. reflexivity.
Qed.

(** The midline each frame is sampled under: without [frame_specific] the
    frames of channel "470" are sampled under the midlines of channel "410",
    and the frames of every other channel under their own midline; with
    [frame_specific] every frame is sampled under its own midline.  The call
    returns whenever [n_points] is not negative, the two stacks have the same
    labels, with a frame at least, and the two channels are among them. *)
Lemma measure_under_midlines_midline_of_frame (fl_stack : DataArray image)
    (midlines : DataArray (option Polynomial)) (n_points : Z) (order : Z)
    (thickness : pynum) (flatten : bool) :
  0 <= n_points ->
  same_coords fl_stack midlines = true -> labels fl_stack <> [] ->
  In "410"%string (wavelengths midlines) -> In "470"%string (wavelengths midlines) ->
  (exists after out,
     measure_under_midlines fl_stack midlines n_points false order thickness flatten
     = (after, Ret out) /\
     forall a w p, (a < animals fl_stack)%nat -> In w (wavelengths fl_stack) ->
                   In p (pairs fl_stack) ->
       sample_frame n_points thickness order (frame fl_stack a w p)
         (if String.eqb w "470" then frame midlines a "410" p
          else frame midlines a w p)
       = Ret (frame out a w p)) /\
  (exists after out,
     measure_under_midlines fl_stack midlines n_points true order thickness flatten
     = (after, Ret out) /\
     forall a w p, (a < animals fl_stack)%nat -> In w (wavelengths fl_stack) ->
                   In p (pairs fl_stack) ->
       sample_frame n_points thickness order (frame fl_stack a w p)
         (frame midlines a w p)
       = Ret (frame out a w p)).
Proof.
  intros Hn Hsame Hlabels H410 H470. split.
  - unfold measure_under_midlines, assign_wavelength.
    rewrite (proj2 (has_label_In _ _) H410), (proj2 (has_label_In _ _) H470).
    cbn [negb].
    destruct (apply_ufunc_returns (sample_frame n_points thickness order) []
                fl_stack
                {| animals := animals midlines; wavelengths := wavelengths midlines;
                   pairs := pairs midlines; y_size := y_size midlines;
                   x_size := x_size midlines;
                   frame := fun a w p =>
                     if String.eqb w "470" then frame midlines a "410" p
                     else frame midlines a w p |})
      as [out Hout].
    + exact Hsame.
    + exact Hlabels.
    + intros fl mid. now apply sample_frame_returns.
    + eexists _, out. split; [rewrite Hout; reflexivity|].
      intros a w p Ha Hw Hp.
      apply (apply_ufunc_frame _ _ _ _ _ Hout a w p). apply in_labels. auto.
  - unfold measure_under_midlines. cbn [negb].
    destruct (apply_ufunc_returns (sample_frame n_points thickness order) []
                fl_stack midlines Hsame Hlabels) as [out Hout].
    + intros fl mid. now apply sample_frame_returns.
    + eexists _, out. split; [rewrite Hout; reflexivity|].
      intros a w p Ha Hw Hp.
      apply (apply_ufunc_frame _ _ _ _ _ Hout a w p). apply in_labels. auto.
Qed.

(** C9, the code at a stack of one animal, one pair and the two channels
    "410" and "470" with two different midlines: after the call without
    [frame_specific] the caller's [midlines] holds under "470" the midline of
    "410", and not the one it held before the call *)
Theorem measure_under_midlines_overwrites_midlines :
  let after := fst (measure_under_midlines fl_two midlines_two 3 false 1
                      (PyInt 0) true) in
  frame midlines_two 0 "470" 0 = Some (line 1 0 0 4) /\
  frame after 0 "470" 0 = Some (line 0 0 0 4) /\
  frame after 0 "470" 0 <> frame midlines_two 0 "470" 0.
Proof.
  cbv zeta. split; [reflexivity|]. split; [reflexivity|].
  vm_compute. discriminate.
Qed.

End BatchClaims.

(** C7, the code at a stack of one animal, one pair and the three channels
    "410", "470" and "560", each with a midline of its own, without
    [frame_specific].  The frame of "470" is sampled under the midline of
    "410"; the frame of the third channel "560" is sampled under its own
    midline, which is not the one of "410", and the profile is another than
    the one the midline of "410" gives: the assignment that shares the
    midline names the channel "470" alone. *)
Theorem reference_midline_not_broadcast :
  let sample := @sample_frame plain_numerics 3 (PyInt 0) 1 in
  match snd (@measure_under_midlines plain_numerics fl_three midlines_three 3 false 1
               (PyInt 0) true) with
  | Ret out =>
      Ret (frame out 0%nat "470"%string 0)
      = sample (frame fl_three 0%nat "470"%string 0)
               (frame midlines_three 0%nat "410"%string 0) /\
      Ret (frame out 0%nat "560"%string 0)
      = sample (frame fl_three 0%nat "560"%string 0)
               (frame midlines_three 0%nat "560"%string 0) /\
      Ret (frame out 0%nat "560"%string 0)
      <> sample (frame fl_three 0%nat "560"%string 0)
                (frame midlines_three 0%nat "410"%string 0) /\
      frame midlines_three 0%nat "560"%string 0
      <> frame midlines_three 0%nat "410"%string 0
  | Raise _ => False
  end.
Proof.
  vm_compute. repeat split; discriminate.
Qed.

(** ** The threshold search *)

Lemma threshold_shape (img : image) (t : float) :
  map length (threshold img t) = map length img.
Proof.
  unfold threshold. rewrite map_map. apply map_ext. intros row. apply length_map.
Qed.

(** Arrays of one shape have a pixel together *)
Lemma shape_pixels {A B : Type} (a : list (list A)) (b : list (list B)) :
  map length a = map length b -> concat a <> [] -> concat b <> [].
Proof.
  revert b. induction a as [|row a IH]; intros b Hshape Ha; [now destruct Ha|].
  destruct b as [|row' b]; [discriminate|]. injection Hshape as Hrow Hshape.
  cbn in *. destruct row as [|x row].
  - destruct row'; [|discriminate]. cbn. now apply IH.
  - destruct row'; discriminate.
Qed.

(** One step either returns a mask of the shape of the image after at most
    [max_iter] updates, or goes on with one update more; on an image with a
    pixel the area of the mask in hand is always there, and nothing is
    raised *)
Lemma search_step_cases (img : image) (mx : float) (st : search) :
  concat img <> [] ->
  map length (S st) = map length img -> 0 <= i st <= max_iter ->
  match search_step img mx st with
  | Return m n => map length m = map length img /\ i st <= n <= max_iter
  | Continue st' =>
      map length (S st') = map length img /\ i st' = i st + 1 /\ i st' <= max_iter
  | Throw _ => False
  end.
Proof.
  intros Hpixels Hshape Hi. unfold search_step, default_mask.
  destruct (loop_condition st); [|split; [assumption | lia]].
  destruct (i st >=? max_iter) eqn:Hmax; [split; [assumption | lia]|].
  assert (i st < max_iter) by lia.
  destruct (get_area_of_largest_object_returns (S st)) as [area ->].
  { apply (shape_pixels img); [now symmetry | exact Hpixels]. }
  destruct (Float64.ltb _ _); [split; [apply threshold_shape | lia]|].
  destruct (Float64.gtb _ _); [split; [apply threshold_shape | lia]|].
  cbn. split; [apply threshold_shape | lia].
Qed.

(** The loop returns within [max_iter - i + 1] tests of its condition *)
Lemma search_loop_returns (img : image) (mx : float) (fuel : nat) (st : search) :
  concat img <> [] ->
  map length (S st) = map length img -> 0 <= i st <= max_iter ->
  max_iter - i st < Z.of_nat fuel ->
  exists m n, search_loop fuel img mx st = Some (Ret (m, n)) /\
              map length m = map length img /\ i st <= n <= max_iter.
Proof.
  intros Hpixels. revert st.
  induction fuel as [|fuel IH]; intros st Hshape Hi Hfuel; [lia|].
  cbn [search_loop].
  pose proof (search_step_cases img mx st Hpixels Hshape Hi) as Hstep.
  destruct (search_step img mx st) as [m n|st'|e].
  - exists m, n. tauto.
  - destruct Hstep as (Hshape' & Hi' & Hmax).
    destruct (IH st' Hshape') as (m & n & Hloop & Hm & Hn); [lia | lia |].
    exists m, n. split; [exact Hloop|]. split; [exact Hm | lia].
  - destruct Hstep.
Qed.

(** More tests than the loop needs change nothing *)
Lemma search_loop_more_fuel (img : image) (mx : float) (fuel fuel' : nat)
    (st : search) (r : outcome (mask * Z)) :
  search_loop fuel img mx st = Some r -> (fuel <= fuel')%nat ->
  search_loop fuel' img mx st = Some r.
Proof.
  revert fuel' st. induction fuel as [|fuel IH]; intros fuel' st Hr Hle;
    [discriminate|].
  destruct fuel' as [|fuel']; [lia|]. cbn [search_loop] in *.
  destruct (search_step img mx st); [exact Hr | | exact Hr].
  apply IH; [exact Hr | lia].
Qed.

Lemma zeroed_copy_binary (img : image) :
  is_binary (ZeroedCopy (map (map (fun _ => Float64.zero)) img)).
Proof.
  cbn. apply List.Forall_forall. intros row Hrow.
  apply in_map_iff in Hrow as (row' & <- & _).
  apply List.Forall_forall. intros v Hv.
  apply in_map_iff in Hv as (v' & <- & _). now left.
Qed.

Lemma segment_pharynx_fuel_returns (fl_img : FlImage) (fuel : nat) :
  concat (data fl_img) <> [] -> (Z.to_nat max_iter < fuel)%nat ->
  exists seg n,
    segment_pharynx_fuel fuel fl_img = Some (Ret (seg, n)) /\
    segment_pharynx fl_img = Some (Ret (seg, n)) /\
    0 <= n <= max_iter /\
    seg_shape seg = map length (data fl_img) /\
    is_binary seg.
Proof.
  intros Hpixels Hfuel. unfold segment_pharynx, segment_pharynx_fuel.
  destruct (contains "tl" (lower (wavelength fl_img))).
  - eexists _, 0. split; [reflexivity|]. split; [reflexivity|].
    split; [unfold max_iter; lia|]. split; [|apply zeroed_copy_binary].
    cbn. rewrite map_map. apply map_ext. intros row. apply length_map.
  - unfold img_max. destruct (concat (data fl_img)) as [|v rest] eqn:Hdata;
      [congruence|].
    set (mx := fold_left _ rest v).
    destruct (get_area_of_largest_object_returns
                (threshold (data fl_img) (Float64.mul mx (Float64.ratio 15 100))))
      as [area0 ->].
    { apply (shape_pixels (data fl_img)); [now rewrite threshold_shape|].
      now rewrite Hdata. }
    set (st0 := {| p := _; S := _; cur_area := _; i := 0 |}).
    assert (Hshape : map length (S st0) = map length (data fl_img))
      by apply threshold_shape.
    assert (Hi : 0 <= i st0 <= max_iter) by (cbn; unfold max_iter; lia).
    destruct (search_loop_returns (data fl_img) mx (Datatypes.S (Z.to_nat max_iter))
                st0 ltac:(now rewrite Hdata) Hshape Hi)
      as (m & n & Hloop & Hm & Hn);
      [cbn; unfold max_iter; lia|].
    rewrite Hloop.
    rewrite (search_loop_more_fuel _ _ _ fuel _ _ Hloop) by lia.
    exists (Thresholded m), n. cbn in Hn.
    split; [reflexivity|]. split; [reflexivity|]. split; [lia|]. split; [exact Hm|].
    exact I.
Qed.

(** C10: on an image with at least one pixel [segment_pharynx] returns a
    binary mask of the shape of the image and raises nothing; the loop of the
    threshold search completes at most [max_iter = 300] updates, so that 301
    tests of its condition, or any greater number, finish it with the same
    mask; and a run of the loop body that, for the area it measures on the
    mask in hand, takes [p] below 0 or above 0.9 returns, at once, the mask
    of the default threshold [0.15 * max] *)
Theorem segment_pharynx_terminates (fl_img : FlImage) :
  concat (data fl_img) <> [] ->
  (exists seg n,
     segment_pharynx fl_img = Some (Ret (seg, n)) /\
     (forall fuel, (Z.to_nat max_iter < fuel)%nat ->
        segment_pharynx_fuel fuel fl_img = Some (Ret (seg, n))) /\
     0 <= n <= 300 /\
     seg_shape seg = map length (data fl_img) /\
     is_binary seg) /\
  (forall mx st area,
     loop_condition st = true -> i st < max_iter ->
     get_area_of_largest_object (S st) = Ret area ->
     out_of_range (next_p (p st) area) = true ->
     search_step (data fl_img) mx st
     = Return (threshold (data fl_img) (Float64.mul mx (Float64.ratio 15 100)))
              (i st + 1)).
Proof.
  intros Hpixels. split.
  - destruct (segment_pharynx_fuel_returns fl_img (Datatypes.S (Z.to_nat max_iter))
                Hpixels) as (seg & n & _ & Hseg & Hn & Hshape & Hbin); [lia|].
    exists seg, n. split; [exact Hseg|]. split; [|now repeat split].
    intros fuel Hfuel.
    destruct (segment_pharynx_fuel_returns fl_img fuel Hpixels Hfuel)
      as (seg' & n' & Hfuel' & Hseg' & _).
    congruence.
  - intros mx st area Hcond Hi Harea Hout.
    unfold search_step, default_mask. rewrite Hcond, Harea.
    destruct (i st >=? max_iter) eqn:Hmax; [lia|].
    unfold out_of_range in Hout.
    destruct (Float64.ltb (next_p (p st) area) Float64.zero); [reflexivity|].
    cbn [orb] in Hout. now rewrite Hout.
Qed.

(** C10 at the image of 6 by 6 pixels whose pixel [(r, c)] is [r + c] *)
Lemma segment_pharynx_terminates_witness :
  exists seg n,
    segment_pharynx {| wavelength := "410"; data := ramp 6 6 |} = Some (Ret (seg, n)) /\
    0 <= n <= 300 /\
    seg_shape seg = [6; 6; 6; 6; 6; 6]%nat.
Proof.
  destruct (proj1 (segment_pharynx_terminates
                     {| wavelength := "410"; data := ramp 6 6 |}
                     ltac:(discriminate)))
    as (seg & n & Hseg & _ & Hn & Hshape & _).
  exists seg, n. split; [exact Hseg|]. split; [exact Hn | exact Hshape].
Defined.

(** ** The clipped window of the profile normaliser *)

(** For a positive [idx_to_clip] the window holds the positions from
    [idx_to_clip] up to, and without, [length - idx_to_clip] *)
Lemma window_positions_spec (L : nat) (k : Z) (x : nat) :
  0 < k ->
  In x (window_positions L k) <-> k <= Z.of_nat x < Z.of_nat L - k.
Proof.
  intros Hk. unfold window_positions, py_slice, slice_index.
  rewrite length_seq, drop_seq, take_seq, in_seq.
  destruct (k <? 0) eqn:Hk0; [lia|].
  destruct (- k <? 0) eqn:Hk1; [|lia].
  lia.
Qed.

(** so that, among positive values, a greater [idx_to_clip] narrows it *)
Lemma window_positions_nested (L : nat) (k1 k2 : Z) (x : nat) :
  0 < k1 <= k2 ->
  In x (window_positions L k2) -> In x (window_positions L k1).
Proof.
  intros Hk. rewrite !window_positions_spec by lia. lia.
Qed.

(** [l[0:-0]] is [l[0:0]] *)
Lemma clip_window_zero (profile : list float) : clip_window profile 0 = [].
Proof.
  unfold clip_window, py_slice, slice_index. change (- 0) with 0.
  change (0 <? 0) with false. cbv iota.
  replace (Z.min 0 (Z.of_nat (length profile))) with 0 by lia.
  reflexivity.
Qed.

Lemma idx_to_clip_zero (L : Z) : idx_to_clip L (PyInt 0) = Ret 0.
Proof. unfold idx_to_clip. now rewrite Z.mul_0_r. Qed.

(** A traversal raises what one of its calls raises *)
Lemma traverse_only {A B : Type} (f : A -> outcome B) (E : exn) (l : list A) :
  (forall x e, f x = Raise e -> e = E) ->
  forall e, traverse f l = Raise e -> e = E.
Proof.
  intros Hf. induction l as [|x l IH]; intros e; cbn [traverse]; [discriminate|].
  destruct (f x) as [y|e'] eqn:Hx; cbn [obind].
  - destruct (traverse f l) as [ys|e'']; cbn [obind]; [discriminate|].
    intros [= <-]. now apply IH.
  - intros [= <-]. now apply (Hf x).
Qed.

(** Broadcasting fails with [ValueError] only, and an empty row against a
    1-D array stays empty when it does not fail *)
Lemma broadcast_last_only (op : float -> float -> float) (row v : list float)
    (e : exn) :
  broadcast_last op row v = Raise e -> e = ValueError.
Proof.
  unfold broadcast_last. destruct (Nat.eqb _ _); [discriminate|].
  destruct v as [|y [|y' v]]; destruct row as [|x [|x' row]];
    try discriminate; now intros [= <-].
Qed.

Lemma broadcast_frames_only (op : float -> float -> float) (imgs : list image)
    (v : list float) (e : exn) :
  broadcast_frames op imgs v = Raise e -> e = ValueError.
Proof.
  unfold broadcast_frames. apply traverse_only. intros img e'.
  apply traverse_only. intros row e''. apply broadcast_last_only.
Qed.

Lemma broadcast_last_empty (op : float -> float -> float) (v row : list float) :
  broadcast_last op [] v = Ret row -> row = [].
Proof.
  unfold broadcast_last. destruct (Nat.eqb _ _); [now intros [= <-]|].
  destruct v as [|y [|y' v]]; try discriminate. now intros [= <-].
Qed.

(** With nothing left of the first profile the normaliser fails, for either
    kind of array: by the time the minimum of the empty window is asked for,
    if not before, in the broadcasting of the means *)
Lemma normalize_empty_window (kind : array_kind) (fl_imgs : list image)
    (profile : list float) (profiles : list (list float)) (percent_to_clip : pynum)
    (k : Z) :
  idx_to_clip (Z.of_nat (length profile)) percent_to_clip = Ret k ->
  clip_window profile k = [] ->
  normalize_images_single_wvl kind fl_imgs (profile :: profiles) percent_to_clip
  = Raise ValueError.
Proof.
  intros Hk Hwindow. unfold normalize_images_single_wvl. cbn [hd].
  rewrite Hk. cbn [obind map]. rewrite Hwindow. destruct kind.
  - cbn [traverse].
    destruct (broadcast_last Float64.sub [] _) as [row|e] eqn:Hrow; cbn [obind].
    2:{ apply broadcast_last_only in Hrow. now subst. }
    apply broadcast_last_empty in Hrow. subst row.
    destruct (traverse _ (map _ profiles)) as [rows|e] eqn:Hrows; cbn [obind].
    2:{ apply traverse_only with (E := ValueError) in Hrows; [now subst|].
        intros x e'. apply broadcast_last_only. }
    destruct (broadcast_frames Float64.sub _ _) as [imgs|e] eqn:Himgs; cbn [obind].
    2:{ apply broadcast_frames_only in Himgs. now subst. }
    reflexivity.
  - reflexivity.
Qed.

(** Without clipping the normaliser has no window left, and fails *)
Lemma normalize_without_clip_raises (kind : array_kind) (fl_imgs : list image)
    (profile : list float) (profiles : list (list float)) :
  normalize_images_single_wvl kind fl_imgs (profile :: profiles) (PyInt 0)
  = Raise ValueError.
Proof.
  apply (normalize_empty_window kind fl_imgs profile profiles (PyInt 0) 0).
  - apply idx_to_clip_zero.
  - apply clip_window_zero.
Qed.

(** C3, the code at [percent_to_clip = 0] and a profile of 4 values:
    [idx_to_clip] is 0 and the slice [profiles[:, 0:-0]] is empty, so the
    statistics are taken over no value at all, not over the whole profile,
    and [np.min] raises, for arrays of either kind; at [percent_to_clip = 25]
    the window holds the positions 1 and 2, which the window at 0 does not
    contain *)
Theorem normalize_clip_zero_window_empty :
  let profile := floats [1; 2; 3; 4] in
  idx_to_clip 4 (PyInt 0) = Ret 0 /\
  idx_to_clip 4 (PyFloat Float64.zero) = Ret 0 /\
  clip_window profile 0 = [] /\
  window_positions 4 0 = [] /\
  (forall kind,
     normalize_images_single_wvl kind [[floats [1; 2]]] [profile] (PyInt 0)
     = Raise ValueError) /\
  idx_to_clip 4 (PyInt 25) = Ret 1 /\
  window_positions 4 1 = [1%nat; 2%nat] /\
  ~ (forall x, In x (window_positions 4 1) -> In x (window_positions 4 0)).
Proof.
  cbv zeta. do 4 (split; [reflexivity|]).
  split; [intros []; reflexivity|]. do 2 (split; [reflexivity|]).
  intros Hsub. exact (Hsub 1%nat (or_introl eq_refl)).
Qed.

(** * Further properties of the pipeline *)

(** ** The sampler at its edges *)

Section SamplerEdges.
Context `{Numerics}.

Lemma poly_linspace_negative (p : Polynomial) (n : Z) :
  n < 0 -> poly_linspace p (PyInt n) = Raise ValueError.
Proof.
  intros Hn. unfold poly_linspace, np_linspace1.
  now rewrite np_linspace_negative.
Qed.

(** X1: a negative [n_points] escapes the bare [except]: the sampling fails
    in [np.linspace], or earlier for a missing midline, and the handler's own
    [np.zeros((1, n_points))] then raises [ValueError] to the caller *)
Theorem measure_under_midline_negative_points (fl : image)
    (mid : option Polynomial) (n_points : Z) (thickness : pynum) (order : Z)
    (norm_scale : float) (flatten : bool) :
  n_points < 0 ->
  measure_under_midline fl mid n_points thickness order norm_scale flatten
  = Raise ValueError.
Proof.
  intros Hn. unfold measure_under_midline.
  assert (Hbody : raises (measure_under_midline_body fl mid n_points thickness order
                            norm_scale flatten)).
  { unfold measure_under_midline_body.
    destruct mid as [p|]; destruct (pynum_is_zero thickness); cbn [deref obind];
      rewrite ?poly_linspace_negative by exact Hn; eexists; reflexivity. }
  destruct Hbody as [e ->]. cbn [try_except]. unfold np_zeros_row.
  destruct (n_points <? 0) eqn:Hneg; [reflexivity | lia].
Qed.

(** When the zero-thickness sampling returns, it returns [n_points] values *)
Lemma thin_sampling_returns (fl : image) (mid : option Polynomial) (n_points : Z)
    (thickness : pynum) (order : Z) (norm_scale : float) (flatten : bool)
    (a : ndarray) :
  0 <= n_points -> pynum_is_zero thickness = true ->
  measure_under_midline_body fl mid n_points thickness order norm_scale flatten = Ret a ->
  exists v, a = Arr1 v /\ length v = Z.to_nat n_points.
Proof.
  intros Hn Hzero. destruct mid as [p|].
  - destruct (thin_sampling fl p n_points thickness order norm_scale flatten Hn Hzero)
      as (v & -> & Hv).
    intros [= <-]. eauto.
  - now rewrite missing_midline_raises.
Qed.

(** Every call of the vectorised sampler fills [n_points] positions *)
Lemma sample_frame_length (n_points : Z) (thickness : pynum) (order : Z)
    (fl : image) (mid : option Polynomial) (v : list float) :
  0 <= n_points ->
  sample_frame n_points thickness order fl mid = Ret v ->
  length v = Z.to_nat n_points.
Proof.
  intros Hn. unfold sample_frame, measure_under_midline.
  destruct (measure_under_midline_body _ _ _ _ _ _ _) as [a|e] eqn:Hbody;
    cbn [try_except obind].
  - intros [= <-]. destruct (pynum_is_zero thickness) eqn:Hzero.
    + destruct (thin_sampling_returns _ _ _ _ _ _ _ _ Hn Hzero Hbody) as (v & -> & Hv).
      exact Hv.
    + destruct (flat_sampling _ _ _ _ _ _ _ Hzero Hbody) as (v & -> & Hv).
      exact Hv.
  - destruct (np_zeros_row_shape n_points Hn) as (-> & _ & Hsize).
    cbn [obind]. intros [= <-]. exact Hsize.
Qed.

(** X2: whatever the thickness, and also for the frames whose sampling
    failed, every profile that [measure_under_midlines] returns holds exactly
    [n_points] values *)
Theorem measure_under_midlines_profile_length (fl_stack : DataArray image)
    (midlines after : DataArray (option Polynomial)) (n_points : Z)
    (frame_specific : bool) (order : Z) (thickness : pynum) (flatten : bool)
    (out : DataArray (list float)) :
  0 <= n_points ->
  measure_under_midlines fl_stack midlines n_points frame_specific order thickness
    flatten = (after, Ret out) ->
  forall a w p, (a < animals fl_stack)%nat -> In w (wavelengths fl_stack) ->
                In p (pairs fl_stack) ->
    length (frame out a w p) = Z.to_nat n_points.
Proof.
  intros Hn Hcall a w p Ha Hw Hp. unfold measure_under_midlines in Hcall.
  destruct (if negb frame_specific then _ else _) as [md|e]; [|discriminate].
  injection Hcall as _ Hout.
  eapply sample_frame_length; [exact Hn|].
  apply (apply_ufunc_frame _ _ _ _ _ Hout a w p). apply in_labels. auto.
Qed.

(** X3: without [frame_specific], a [midlines] stack that lacks channel "410"
    or channel "470" makes the call raise [KeyError] before anything is
    sampled, and the caller's [midlines] is as it was *)
Theorem measure_under_midlines_missing_channel (fl_stack : DataArray image)
    (midlines : DataArray (option Polynomial)) (n_points : Z) (order : Z)
    (thickness : pynum) (flatten : bool) :
  ~ In "410"%string (wavelengths midlines) \/ ~ In "470"%string (wavelengths midlines) ->
  measure_under_midlines fl_stack midlines n_points false order thickness flatten
  = (midlines, Raise KeyError).
Proof.
  intros Hmissing. unfold measure_under_midlines, assign_wavelength. cbn [negb].
  destruct (has_label "410"%string (wavelengths midlines)) eqn:H410; [|reflexivity].
  destruct (has_label "470"%string (wavelengths midlines)) eqn:H470; [|reflexivity].
  apply has_label_In in H410. apply has_label_In in H470. tauto.
Qed.

End SamplerEdges.

(** X1 at [n_points = -1] *)
Lemma measure_under_midline_negative_points_witness :
  @measure_under_midline plain_numerics (ramp 6 6) (Some (line 2 1 0 4)) (-1)
    (PyInt 0) 1 (Float64.of_Z 1) true
  = Raise ValueError.
Proof.
  apply (@measure_under_midline_negative_points plain_numerics). lia.
Defined.

(** X2 at the stack of two channels and 3 points *)
Lemma measure_under_midlines_profile_length_witness :
  let call := @measure_under_midlines plain_numerics fl_two midlines_two 3 false 1
                (PyInt 0) true in
  let out := match snd call with
             | Ret out => out
             | Raise _ => one_animal [] (fun _ => [])
             end in
  length (frame out 0%nat "470"%string 0) = 3%nat.
Proof.
  intros call out.
  apply (@measure_under_midlines_profile_length plain_numerics fl_two midlines_two
           (fst call) 3 false 1 (PyInt 0) true out ltac:(lia) eq_refl
           0%nat "470"%string 0);
    [cbn; lia | right; left; reflexivity | left; reflexivity].
Defined.

(** X3 at a stack with the one channel "410" *)
Lemma measure_under_midlines_missing_channel_witness :
  let midlines := one_animal ["410"%string] (fun _ => Some (line 0 0 0 4)) in
  @measure_under_midlines plain_numerics fl_two midlines 3 false 1 (PyInt 0) true
  = (midlines, Raise KeyError).
Proof.
  intros midlines.
  apply (@measure_under_midlines_missing_channel plain_numerics).
  right. intros [Heq|[]]. discriminate Heq.
Defined.

(** ** The swap is stable *)

Lemma ordered_idempotent (q : float * float * float * float) :
  ordered (ordered q) = ordered q.
Proof.
  destruct q as [[[x0 x1] y0] y1]. unfold ordered.
  destruct (Float64.ltb y0 y1) eqn:Hlt.
  - now rewrite (ltb_asym _ _ Hlt).
  - now rewrite Hlt.
Qed.

Lemma items_eq (l k : list float) :
  length l = length k ->
  (forall j, (j < length l)%nat -> item l j = item k j) -> l = k.
Proof.
  intros Hlen Hitems. apply list_eq. intros j.
  destruct (Nat.lt_ge_cases j (length l)) as [Hlt|Hge].
  - specialize (Hitems j Hlt). unfold item in Hitems.
    destruct (lookup_lt_is_Some_2 l j Hlt) as [x Hx].
    destruct (lookup_lt_is_Some_2 k j ltac:(lia)) as [y Hy].
    rewrite Hx, Hy in *. cbn in Hitems. now subst.
  - rewrite (lookup_ge_None_2 l j Hge). symmetry. apply lookup_ge_None_2. lia.
Qed.

(** X4: the swap loop is idempotent: on segments that it has ordered, a
    second run changes nothing *)
Theorem swap_correction_idempotent (s : segments) (n : nat) :
  length (xs0 s) = n -> length (xs1 s) = n ->
  length (ys0 s) = n -> length (ys1 s) = n ->
  swap_correction (swap_correction s) = swap_correction s.
Proof.
  intros H0 H1 H2 H3.
  destruct (swap_correction_spec s n) as [Hlen Hquad]; [repeat split; assumption|].
  destruct (swap_correction_spec (swap_correction s) n Hlen) as [Hlen' Hquad'].
  assert (Hsame : forall j, (j < n)%nat ->
            quad (swap_correction (swap_correction s)) j = quad (swap_correction s) j).
  { intros j Hj. rewrite (Hquad' j Hj), (Hquad j Hj). apply ordered_idempotent. }
  destruct Hlen as (L0 & L1 & L2 & L3), Hlen' as (K0 & K1 & K2 & K3).
  destruct (swap_correction (swap_correction s)) as [a0 a1 b0 b1] eqn:Hss.
  destruct (swap_correction s) as [c0 c1 d0 d1] eqn:Hs.
  cbn in *. unfold quad in Hsame. cbn in Hsame.
  f_equal; apply items_eq; try congruence; intros j Hj;
    specialize (Hsame j ltac:(lia)); congruence.
Qed.

(** X4 at two segments *)
Lemma swap_correction_idempotent_witness :
  let s := {| xs0 := floats [1; 2]; xs1 := floats [3; 4];
              ys0 := floats [0; 5]; ys1 := floats [1; 2] |} in
  swap_correction (swap_correction s) = swap_correction s.
Proof.
  intros s.
  exact (swap_correction_idempotent s 2 eq_refl eq_refl eq_refl eq_refl).
Defined.

(** ** What the threshold search returns *)

Lemma threshold_fraction_in_range : out_of_range (Float64.ratio 15 100) = false.
Proof. reflexivity. Qed.

(** The search keeps its mask at the threshold [p * max], keeps [p] within
    0 and 0.9, and once the area is in the target range the mask in hand is
    the one that area was measured on *)
Lemma search_step_invariant (img : image) (mx : float) (st : search) :
  S st = threshold img (Float64.mul mx (p st)) ->
  out_of_range (p st) = false ->
  (loop_condition st = false ->
   get_area_of_largest_object (S st) = Ret (cur_area st)) ->
  match search_step img mx st with
  | Return m n =>
      (exists q, m = threshold img (Float64.mul mx q) /\ out_of_range q = false) /\
      ((exists a, get_area_of_largest_object m = Ret a /\ min_area <= a <= max_area) \/
       max_iter <= n \/ m = default_mask img mx)
  | Continue st' =>
      S st' = threshold img (Float64.mul mx (p st')) /\
      out_of_range (p st') = false /\
      (loop_condition st' = false ->
       get_area_of_largest_object (S st') = Ret (cur_area st'))
  | Throw _ => True
  end.
Proof.
  intros HS Hp Harea. unfold search_step.
  destruct (loop_condition st) eqn:Hcond.
  - destruct (i st >=? max_iter) eqn:Hmax.
    + split; [eauto|]. right. left. lia.
    + destruct (get_area_of_largest_object (S st)) as [area|e] eqn:Hmeasured;
        [|exact I].
      destruct (Float64.ltb (next_p (p st) area) Float64.zero) eqn:Hlow.
      { split; [|auto]. exists (Float64.ratio 15 100).
        split; [reflexivity | apply threshold_fraction_in_range]. }
      destruct (Float64.gtb (next_p (p st) area) (Float64.ratio 9 10)) eqn:Hhigh.
      { split; [|auto]. exists (Float64.ratio 15 100).
        split; [reflexivity | apply threshold_fraction_in_range]. }
      cbn [S p cur_area i]. split; [reflexivity|]. split.
      * unfold out_of_range. now rewrite Hlow, Hhigh.
      * unfold loop_condition. cbn [cur_area]. intros Hin.
        apply orb_false_elim in Hin as [Hmin Hmaxa].
        assert (Hnext : next_p (p st) area = p st).
        { unfold next_p.
          destruct (area >? max_area) eqn:E1; [lia|].
          destruct (area <? min_area) eqn:E2; [lia|].
          reflexivity. }
        rewrite Hnext, <- HS. exact Hmeasured.
  - split; [eauto|]. left. exists (cur_area st). split; [now apply Harea|].
    unfold loop_condition in Hcond. apply orb_false_elim in Hcond as [Hmin Hmaxa]. lia.
Qed.

Lemma search_loop_invariant (img : image) (mx : float) (fuel : nat) (st : search)
    (m : mask) (n : Z) :
  S st = threshold img (Float64.mul mx (p st)) ->
  out_of_range (p st) = false ->
  (loop_condition st = false ->
   get_area_of_largest_object (S st) = Ret (cur_area st)) ->
  search_loop fuel img mx st = Some (Ret (m, n)) ->
  (exists q, m = threshold img (Float64.mul mx q) /\ out_of_range q = false) /\
  ((exists a, get_area_of_largest_object m = Ret a /\ min_area <= a <= max_area) \/
   max_iter <= n \/ m = default_mask img mx).
Proof.
  revert st. induction fuel as [|fuel IH]; intros st HS Hp Harea; [discriminate|].
  cbn [search_loop]. pose proof (search_step_invariant img mx st HS Hp Harea) as Hstep.
  destruct (search_step img mx st) as [m' n'|st'|e].
  - intros [= <- <-]. exact Hstep.
  - destruct Hstep as (HS' & Hp' & Harea'). now apply IH.
  - discriminate.
Qed.

(** X5: for a frame that is not transmitted light and has a pixel,
    [segment_pharynx] returns the image thresholded at a fraction [q] of its
    maximum, [q] neither below 0 nor above 0.9; and the first object of the
    mask has an area within the target range of 350 to 550 pixels, unless the
    search gave up after its 300 updates or fell back on the default mask of
    the fraction 0.15 *)
Theorem segment_pharynx_postcondition (fl_img : FlImage) :
  contains "tl" (lower (wavelength fl_img)) = false ->
  concat (data fl_img) <> [] ->
  exists mx q n,
    img_max (data fl_img) = Ret mx /\
    segment_pharynx fl_img
    = Some (Ret (Thresholded (threshold (data fl_img) (Float64.mul mx q)), n)) /\
    out_of_range q = false /\
    ((exists a,
        get_area_of_largest_object (threshold (data fl_img) (Float64.mul mx q))
        = Ret a /\ 350 <= a <= 550) \/
     n = 300 \/
     threshold (data fl_img) (Float64.mul mx q) = default_mask (data fl_img) mx).
Proof.
  intros Htl Hpixels.
  destruct (segment_pharynx_fuel_returns fl_img (Datatypes.S (Z.to_nat max_iter))
              Hpixels) as (seg & n & _ & Hseg & Hn & _); [lia|].
  unfold segment_pharynx, segment_pharynx_fuel in *. rewrite Htl in *.
  destruct (img_max (data fl_img)) as [mx|e] eqn:Hmax; [|discriminate].
  destruct (get_area_of_largest_object _) as [area0|e] eqn:Harea0; [|discriminate].
  destruct (search_loop _ _ _ _) as [[[m n']|e]|] eqn:Hloop; try discriminate.
  injection Hseg as <- <-.
  eapply search_loop_invariant in Hloop as ((q & -> & Hq) & Hpost);
    [| reflexivity | apply threshold_fraction_in_range | intros _; exact Harea0].
  exists mx, q, n'. split; [reflexivity|]. split; [reflexivity|]. split; [exact Hq|].
  unfold min_area, max_area, target_area, area_range, max_iter in *.
  destruct Hpost as [(a & Ha & Hrange)|[Hgave|Hdefault]];
    [left; exists a; split; [exact Ha | lia] | right; left; lia | auto].
Qed.

Lemma loop_condition_false_iff (st : search) :
  loop_condition st = false <-> 350 <= cur_area st <= 550.
Proof.
  unfold loop_condition, min_area, max_area, target_area, area_range.
  rewrite orb_false_iff. lia.
Qed.

(** The count a search returns is at least the count it starts from *)
Lemma search_loop_count_ge (img : image) (mx : float) (fuel : nat) (st : search)
    (m : mask) (n : Z) :
  search_loop fuel img mx st = Some (Ret (m, n)) -> i st <= n.
Proof.
  revert st. induction fuel as [|fuel IH]; intros st; [discriminate|].
  cbn [search_loop]. unfold search_step.
  destruct (loop_condition st); [|intros [= _ <-]; lia].
  destruct (i st >=? max_iter); [intros [= _ <-]; lia|].
  destruct (get_area_of_largest_object (S st)) as [area|e]; [|discriminate].
  destruct (Float64.ltb _ _); [intros [= _ <-]; lia|].
  destruct (Float64.gtb _ _); [intros [= _ <-]; lia|].
  intros Hloop. apply IH in Hloop. cbn [i] in Hloop. lia.
Qed.

(** A search that enters its loop makes an update *)
Lemma search_loop_first_update (img : image) (mx : float) (fuel : nat) (st : search)
    (m : mask) (n : Z) :
  loop_condition st = true -> i st < max_iter ->
  search_loop fuel img mx st = Some (Ret (m, n)) -> i st + 1 <= n.
Proof.
  intros Hcond Hi. destruct fuel as [|fuel]; [discriminate|].
  cbn [search_loop]. unfold search_step. rewrite Hcond.
  destruct (i st >=? max_iter) eqn:Hmax; [lia|].
  destruct (get_area_of_largest_object (S st)) as [area|e]; [|discriminate].
  destruct (Float64.ltb _ _); [intros [= _ <-]; lia|].
  destruct (Float64.gtb _ _); [intros [= _ <-]; lia|].
  intros Hloop. apply search_loop_count_ge in Hloop. cbn [i] in Hloop. exact Hloop.
Qed.

(** X6: for such a frame, the search loop makes no update exactly when the
    first object of the mask at the fraction 0.15 has an area within
    350 to 550 pixels; that mask is then the result *)
Theorem segment_pharynx_accepts_initial (fl_img : FlImage) (mx : float) :
  contains "tl" (lower (wavelength fl_img)) = false ->
  img_max (data fl_img) = Ret mx ->
  let S0 := default_mask (data fl_img) mx in
  ((exists a, get_area_of_largest_object S0 = Ret a /\ 350 <= a <= 550) <->
   segment_pharynx fl_img = Some (Ret (Thresholded S0, 0))) /\
  (forall seg, segment_pharynx fl_img = Some (Ret (seg, 0)) -> seg = Thresholded S0).
Proof.
  intros Htl Hmax S0. unfold segment_pharynx, segment_pharynx_fuel.
  rewrite Htl, Hmax. fold (default_mask (data fl_img) mx). fold S0.
  destruct (get_area_of_largest_object S0) as [area0|e] eqn:Harea0.
  2:{ split; [|discriminate]. split; [intros (a & Ha & _)|]; discriminate. }
  set (st0 := {| p := _; S := S0; cur_area := area0; i := 0 |}).
  assert (Hrange : (exists a, Ret area0 = Ret a /\ 350 <= a <= 550)
                   <-> loop_condition st0 = false).
  { rewrite loop_condition_false_iff. cbn [cur_area]. split.
    - intros (a & [= <-] & Ha). exact Ha.
    - intros Ha. eauto. }
  rewrite Hrange.
  destruct (loop_condition st0) eqn:Hcond.
  - assert (Hone : forall m n,
              search_loop (Datatypes.S (Z.to_nat max_iter)) (data fl_img) mx st0
              = Some (Ret (m, n)) -> 1 <= n).
    { intros m n Hloop.
      apply (search_loop_first_update _ _ _ _ _ _ Hcond) in Hloop; [exact Hloop|].
      cbn. unfold max_iter. lia. }
    destruct (search_loop _ _ _ st0) as [[[m n]|e]|]; split;
      try (split; discriminate); try (intros seg; discriminate).
    + split; [discriminate|]. intros [= _ ->]. specialize (Hone m 0 eq_refl). lia.
    + intros seg [= _ ->]. specialize (Hone m 0 eq_refl). lia.
  - assert (Hloop : search_loop (Datatypes.S (Z.to_nat max_iter)) (data fl_img) mx st0
                    = Some (Ret (S0, 0))).
    { cbn [search_loop]. unfold search_step. now rewrite Hcond. }
    rewrite Hloop. split; [tauto|]. intros seg [= <-]. reflexivity.
Qed.

(** X5 and X6 at the image of 6 by 6 pixels whose pixel [(r, c)] is [r + c] *)
Lemma segment_pharynx_postcondition_witness :
  exists mx q n,
    img_max (ramp 6 6) = Ret mx /\
    segment_pharynx {| wavelength := "410"; data := ramp 6 6 |}
    = Some (Ret (Thresholded (threshold (ramp 6 6) (Float64.mul mx q)), n)) /\
    out_of_range q = false.
Proof.
  destruct (segment_pharynx_postcondition {| wavelength := "410"; data := ramp 6 6 |}
              eq_refl ltac:(discriminate)) as (mx & q & n & Hmax & Hseg & Hq & _).
  exists mx, q, n. auto.
Defined.

Lemma segment_pharynx_accepts_initial_witness :
  (exists a,
     get_area_of_largest_object (default_mask (ramp 6 6) (Float64.of_Z 10)) = Ret a /\
     350 <= a <= 550)
  <->
  segment_pharynx {| wavelength := "410"; data := ramp 6 6 |}
  = Some (Ret (Thresholded (default_mask (ramp 6 6) (Float64.of_Z 10)), 0)).
Proof.
  exact (proj1 (segment_pharynx_accepts_initial
                  {| wavelength := "410"; data := ramp 6 6 |} (Float64.of_Z 10)
                  eq_refl eq_refl)).
Defined.

(** ** The window of the profile normaliser *)

Lemma traverse_length {A B : Type} (f : A -> outcome B) (l : list A) (out : list B) :
  traverse f l = Ret out -> length out = length l.
Proof.
  revert out. induction l as [|x l IH]; intros out; cbn [traverse].
  - now intros [= <-].
  - destruct (f x) as [y|]; [|discriminate]. cbn [obind].
    destruct (traverse f l) as [ys|]; [|discriminate]. cbn [obind].
    intros [= <-]. cbn. now rewrite (IH ys eq_refl).
Qed.

Lemma clip_window_length (profile : list float) (k : Z) :
  0 < k ->
  Z.of_nat (length (clip_window profile k))
  = Z.max 0 (Z.of_nat (length profile) - 2 * k).
Proof.
  intros Hk. unfold clip_window, py_slice, slice_index.
  rewrite length_take, length_drop.
  destruct (k <? 0) eqn:Hk0; [lia|].
  destruct (- k <? 0) eqn:Hk1; [|lia].
  lia.
Qed.

(** X8: when [idx_to_clip] is positive and takes half of the profile or
    more, nothing is left of the profile, and the normaliser raises
    [ValueError], for arrays of either kind *)
Theorem normalize_window_exhausted (kind : array_kind) (fl_imgs : list image)
    (profile : list float) (profiles : list (list float)) (percent_to_clip : pynum)
    (k : Z) :
  idx_to_clip (Z.of_nat (length profile)) percent_to_clip = Ret k ->
  0 < k -> Z.of_nat (length profile) <= 2 * k ->
  normalize_images_single_wvl kind fl_imgs (profile :: profiles) percent_to_clip
  = Raise ValueError.
Proof.
  intros Hk Hpos Hhalf.
  apply (normalize_empty_window kind fl_imgs profile profiles percent_to_clip k Hk).
  pose proof (clip_window_length profile k Hpos) as Hlen.
  destruct (clip_window profile k) as [|v rest]; [reflexivity|].
  cbn [length] in Hlen. lia.
Qed.

(** X8 at a profile of 4 values and 50 percent *)
Lemma normalize_window_exhausted_witness :
  normalize_images_single_wvl NdArray [[floats [1; 2]]] [floats [1; 2; 3; 4]] (PyInt 50)
  = Raise ValueError /\
  normalize_images_single_wvl XArray [[floats [1; 2]]] [floats [1; 2; 3; 4]] (PyInt 50)
  = Raise ValueError.
Proof.
  split.
  - apply (normalize_window_exhausted NdArray [[floats [1; 2]]] (floats [1; 2; 3; 4]) []
             (PyInt 50) 2 eq_refl); cbn; lia.
  - apply (normalize_window_exhausted XArray [[floats [1; 2]]] (floats [1; 2; 3; 4]) []
             (PyInt 50) 2 eq_refl); cbn; lia.
Defined.

(** ** The first object of a mask *)

Lemma flood_keeps (fuel : nat) (comp rest : list (nat * nat)) (q : nat * nat) :
  In q comp -> In q (flood fuel comp rest).
Proof.
  revert comp rest. induction fuel as [|fuel IH]; intros comp rest Hq; [exact Hq|].
  cbn [flood]. unfold grow. apply IH. apply in_or_app. now left.
Qed.

Lemma pix_eqb_refl (q : nat * nat) : pix_eqb q q = true.
Proof. unfold pix_eqb. now rewrite !Nat.eqb_refl. Qed.

Lemma pix_eqb_eq (q q' : nat * nat) : pix_eqb q q' = true <-> q = q'.
Proof.
  unfold pix_eqb. destruct q as [r c], q' as [r' c']. cbn.
  rewrite andb_true_iff, !Nat.eqb_eq. split; [intros []; congruence|].
  intros [= -> ->]. auto.
Qed.

Lemma list_min_le (d : nat) (l : list nat) (x : nat) :
  In x l -> (list_min d l <= x)%nat.
Proof.
  induction l as [|y l IH]; [intros []|]. cbn. intros [->|Hx]; [lia|].
  specialize (IH Hx). unfold list_min in IH. lia.
Qed.

Lemma list_max_ge (l : list nat) (x : nat) :
  In x l -> (x <= list_max l)%nat.
Proof.
  induction l as [|y l IH]; [intros []|]. cbn. intros [->|Hx]; [lia|].
  specialize (IH Hx). unfold list_max in IH. lia.
Qed.

Lemma first_region_coords (m : mask) (rp : region) :
  first_region m = Some rp ->
  coords rp <> [] /\ (forall q, In q (coords rp) -> In q (foreground m)) /\
  (length (coords rp) <= length (foreground m))%nat.
Proof.
  unfold first_region. destruct (foreground m) as [|q rest]; [discriminate|].
  remember (List.filter
              (fun q0 => existsb (pix_eqb q0) (flood (length rest) [q] rest))
              (q :: rest)) as cs eqn:Hcs.
  intros [= <-]. cbn [coords].
  assert (Hq : In q cs).
  { rewrite Hcs. apply filter_In. split; [now left|].
    apply existsb_exists. exists q. split; [|apply pix_eqb_refl].
    apply flood_keeps. now left. }
  split; [|split].
  - intros ->. destruct Hq.
  - intros q' Hq'. rewrite Hcs in Hq'. apply filter_In in Hq'. tauto.
  - rewrite Hcs. apply filter_length_le.
Qed.

(** X10: [get_area_of_largest_object] raises [ValueError] for an array
    without a single pixel, which its [except IndexError] does not catch; for
    a mask with pixels it returns an area that is 0 exactly when no pixel is
    foreground, and is never more than the number of foreground pixels *)
Theorem get_area_of_largest_object_bounds (m : mask) :
  (concat m = [] -> get_area_of_largest_object m = Raise ValueError) /\
  (concat m <> [] ->
   exists a, get_area_of_largest_object m = Ret a /\
             (a = 0 <-> forall r c, pixel m r c = false) /\
             0 <= a <= Z.of_nat (length (foreground m))).
Proof.
  pose proof (get_area_of_largest_object_cases m) as Hcases.
  destruct (concat m) as [|v rest]; split; try congruence. intros _.
  rewrite Hcases. eexists. split; [reflexivity|].
  destruct (first_region m) as [rp|] eqn:Hrp.
  - destruct (first_region_coords m rp Hrp) as (Hne & _ & Hle). unfold area.
    split; [|lia]. split.
    + intros Hzero. destruct (coords rp); [congruence | cbn in Hzero; lia].
    + intros Hempty. apply first_region_None_iff in Hempty. congruence.
  - split; [|lia]. split; [|reflexivity]. intros _.
    now apply first_region_None_iff.
Qed.

(** X10 at a row of two background pixels *)
Lemma get_area_of_largest_object_bounds_witness :
  exists a, get_area_of_largest_object [[false; false]] = Ret a /\
            (a = 0 <-> forall r c, pixel [[false; false]] r c = false) /\
            0 <= a <= Z.of_nat (length (foreground [[false; false]])).
Proof.
  apply (proj2 (get_area_of_largest_object_bounds [[false; false]])). discriminate.
Defined.

(** ** The bounds of get_lr_bounds *)

Lemma traverse_nth {A B : Type} (f : A -> outcome B) (l : list A) (out : list B)
    (j : nat) (dx : A) (dy : B) :
  traverse f l = Ret out -> (j < length l)%nat ->
  f (nth j l dx) = Ret (nth j out dy).
Proof.
  revert out j. induction l as [|x l IH]; intros out j; cbn [traverse length];
    [lia|].
  destruct (f x) as [y|] eqn:Hx; [|discriminate]. cbn [obind].
  destruct (traverse f l) as [ys|]; [|discriminate]. cbn [obind].
  intros [= <-] Hj. destruct j as [|j]; [exact Hx|].
  cbn. apply IH; [reflexivity | lia].
Qed.

Lemma traverse_raises {A B : Type} (f : A -> outcome B) (l : list A) :
  (exists out, traverse f l = Ret out /\ forall x, In x l -> exists y, f x = Ret y) \/
  (exists x e, In x l /\ f x = Raise e /\ traverse f l = Raise e).
Proof.
  induction l as [|x l IH]; cbn [traverse].
  - left. eexists. split; [reflexivity|]. intros x [].
  - destruct (f x) as [y|e] eqn:Hx; cbn [obind].
    + destruct IH as [(ys & -> & Hall)|(x' & e & Hin & Hx' & ->)]; cbn [obind].
      * left. eexists. split; [reflexivity|]. intros z [<-|Hz]; eauto.
      * right. exists x', e. auto with datatypes.
    + right. exists x, e. auto with datatypes.
Qed.

Lemma get_lr_bounds_frame_cases (img : mask) (pad : Z) :
  match first_region img with
  | Some rp =>
      get_lr_bounds_frame img pad
      = Ret (Z.of_nat (list_min (hd 0%nat (map snd (coords rp))) (map snd (coords rp)))
               - pad,
             Z.of_nat (Datatypes.S (list_max (map snd (coords rp)))) + pad - 1)
  | None =>
      match concat img with
      | [] => get_lr_bounds_frame img pad = Raise ValueError
      | _ :: _ => get_lr_bounds_frame img pad = Raise IndexError
      end
  end.
Proof.
  unfold get_lr_bounds_frame. pose proof (regionprops_0_cases img) as Hreg.
  destruct (first_region img); [now rewrite Hreg|].
  destruct (concat img); now rewrite Hreg.
Qed.

(** X11: when [get_lr_bounds] returns, it returns one pair [(l, r)] per
    animal, and the columns of the first object of the animal's reference
    mask all lie between [l + pad] and [r - pad], the two included *)
Theorem get_lr_bounds_bracket (rot_seg_stack : DataArray mask) (pad : Z)
    (ref_wvl : string) (ref_pair : Z) (bounds : list (Z * Z)) :
  get_lr_bounds rot_seg_stack pad ref_wvl ref_pair = Ret bounds ->
  length bounds = animals rot_seg_stack /\
  forall a, (a < animals rot_seg_stack)%nat ->
    exists rp,
      first_region (frame rot_seg_stack a ref_wvl ref_pair) = Some rp /\
      forall row col, In (row, col) (coords rp) ->
        fst (nth a bounds (0, 0)) + pad <= Z.of_nat col
        <= snd (nth a bounds (0, 0)) - pad.
Proof.
  unfold get_lr_bounds.
  destruct (negb (has_label ref_wvl _)); [discriminate|].
  destruct (negb (has_label ref_pair _)); [discriminate|].
  intros Hbounds. split.
  - rewrite (traverse_length _ _ _ Hbounds). apply length_seq.
  - intros a Ha.
    pose proof (traverse_nth _ _ _ a 0%nat (0, 0) Hbounds) as Hnth.
    rewrite length_seq, seq_nth in Hnth by exact Ha. specialize (Hnth Ha).
    cbn [Nat.add] in Hnth.
    pose proof (get_lr_bounds_frame_cases (frame rot_seg_stack a ref_wvl ref_pair) pad)
      as Hcases.
    destruct (first_region _) as [rp|]; [|destruct (concat _); congruence].
    exists rp. split; [reflexivity|]. intros row col Hin.
    rewrite Hcases in Hnth. injection Hnth as <-. cbn [fst snd].
    assert (Hcol : In col (map snd (coords rp)))
      by (apply in_map_iff; exists (row, col); auto).
    pose proof (list_min_le (hd 0%nat (map snd (coords rp))) _ _ Hcol).
    pose proof (list_max_ge _ _ Hcol). lia.
Qed.

(** X12: on a stack that has the reference wavelength and pair,
    [get_lr_bounds] raises exactly when the reference mask of some animal has
    no foreground pixel: unlike [calculate_midline] it does not catch the
    error of the missing object.  The exception is the [IndexError] of the
    subscript for a mask with pixels and the [ValueError] of [regionprops]
    for a mask without a single pixel; on a stack whose reference masks all
    have a pixel it is [IndexError], raised exactly when some reference mask
    has no foreground *)
Theorem get_lr_bounds_no_object (rot_seg_stack : DataArray mask) (pad : Z)
    (ref_wvl : string) (ref_pair : Z) :
  In ref_wvl (wavelengths rot_seg_stack) -> In ref_pair (pairs rot_seg_stack) ->
  let r := get_lr_bounds rot_seg_stack pad ref_wvl ref_pair in
  let reference := fun a => frame rot_seg_stack a ref_wvl ref_pair in
  let empty_reference := fun a =>
    forall row col, pixel (reference a) row col = false in
  let some_empty :=
    exists a, (a < animals rot_seg_stack)%nat /\ empty_reference a in
  (some_empty <-> exists e, r = Raise e) /\
  (forall e, r = Raise e ->
     exists a, (a < animals rot_seg_stack)%nat /\ empty_reference a /\
               ((e = IndexError /\ concat (reference a) <> []) \/
                (e = ValueError /\ concat (reference a) = []))) /\
  ((forall a, (a < animals rot_seg_stack)%nat -> concat (reference a) <> []) ->
   (some_empty <-> r = Raise IndexError)).
Proof.
  intros Hw Hp r reference empty_reference some_empty. subst r.
  unfold get_lr_bounds.
  rewrite (proj2 (has_label_In _ _) Hw), (proj2 (has_label_In _ _) Hp). cbn [negb].
  set (f := fun a => get_lr_bounds_frame (frame rot_seg_stack a ref_wvl ref_pair) pad).
  assert (Hf : forall a e, f a = Raise e ->
            empty_reference a /\
            ((e = IndexError /\ concat (reference a) <> []) \/
             (e = ValueError /\ concat (reference a) = []))).
  { intros a e. unfold f, empty_reference, reference.
    pose proof (get_lr_bounds_frame_cases (frame rot_seg_stack a ref_wvl ref_pair) pad)
      as Hcases.
    destruct (first_region _) eqn:Hrp; [congruence|].
    pose proof (proj1 (first_region_None_iff _) Hrp) as Hempty.
    destruct (concat _); rewrite Hcases; intros [= <-]; (split; [exact Hempty|]).
    - right. split; reflexivity.
    - left. split; [reflexivity | discriminate]. }
  assert (Hret : forall a y, f a = Ret y -> ~ empty_reference a).
  { intros a y. unfold f, empty_reference, reference. intros Hy Hempty.
    pose proof (get_lr_bounds_frame_cases (frame rot_seg_stack a ref_wvl ref_pair) pad)
      as Hcases.
    rewrite (first_region_empty _ Hempty) in Hcases.
    destruct (concat _); congruence. }
  destruct (traverse_raises f (seq 0 (animals rot_seg_stack)))
    as [(out & Hout & Hall)|(a & e & Hin & Ha & Hraise)].
  - rewrite Hout.
    assert (Hnone : ~ some_empty).
    { intros (a & Ha & Hempty). destruct (Hall a) as [y Hy]; [apply in_seq; lia|].
      exact (Hret a y Hy Hempty). }
    split; [|split].
    + split; [tauto|]. intros [e He]. discriminate.
    + intros e He. discriminate.
    + intros _. split; [tauto | discriminate].
  - rewrite Hraise. apply in_seq in Hin. destruct (Hf a e Ha) as [Hempty Hkind].
    assert (Hsome : some_empty) by (exists a; split; [lia | exact Hempty]).
    split; [|split].
    + split; eauto.
    + intros e' [= <-]. exists a. split; [lia|]. auto.
    + intros Hpixels. split; [|auto]. intros _.
      destruct Hkind as [[-> _]|[_ Hnil]]; [reflexivity|].
      destruct (Hpixels a ltac:(lia) Hnil).
Qed.

(** X11 and X12 at masks of 6 by 6 pixels *)
Lemma get_lr_bounds_bracket_witness :
  let stack := one_animal two_channels (fun _ => single_pixel_mask 6 6 2 3) in
  let bounds := match get_lr_bounds stack 1 "410" 0 with
                | Ret bounds => bounds
                | Raise _ => []
                end in
  length bounds = 1%nat.
Proof.
  intros stack bounds.
  exact (proj1 (get_lr_bounds_bracket stack 1 "410" 0 bounds eq_refl)).
Defined.

Lemma get_lr_bounds_no_object_witness :
  get_lr_bounds (one_animal two_channels (fun _ => [[false; false]])) 0 "410" 0
  = Raise IndexError.
Proof.
  apply (proj1 (proj2 (proj2 (get_lr_bounds_no_object
                                (one_animal two_channels (fun _ => [[false; false]]))
                                0 "410" 0 (or_introl eq_refl) (or_introl eq_refl)))
                 ltac:(intros a _; discriminate))).
  exists 0%nat. split; [cbn; lia|]. apply background_pixels. reflexivity.
Defined.

(** ** The midlines of a stack *)

Section MidlineStacks.
Context `{Numerics}.

Lemma apply_ufunc1_frame {A C : Type} (f : A -> outcome C) (dflt : C)
    (x : DataArray A) (out : DataArray C) :
  apply_ufunc1 f dflt x = Ret out ->
  labels x <> [] /\
  animals out = animals x /\ wavelengths out = wavelengths x /\
  pairs out = pairs x /\
  forall a w p, In (a, w, p) (labels x) -> f (frame x a w p) = Ret (frame out a w p).
Proof.
  unfold apply_ufunc1.
  destruct (labels x) as [|lbl l] eqn:Hl; [discriminate|]. rewrite <- Hl.
  destruct (for_each _ _ _) as [u|e] eqn:Hloop; cbn [obind]; [|discriminate].
  intros [= <-]. split; [congruence|]. cbn. repeat split. intros a w p Hin.
  destruct (for_each_calls (fun lbl => f (at_label x lbl)) (labels x) u Hloop
              (a, w, p) Hin) as [c Hc].
  unfold at_label in Hc. cbn [fst snd] in Hc. now rewrite Hc.
Qed.

(** X13: when [calculate_midlines] returns, it returns a stack with the
    labels of its input, which has a frame; the midline of a frame is the one
    [calculate_midline] fits with degree 4 and pad 10, whatever [degree] is
    given; every frame has a pixel, and the midline is [None] exactly for the
    frames without foreground *)
Theorem calculate_midlines_frames (rot_seg_stack : DataArray mask) (degree : Z)
    (out : DataArray (option Polynomial)) :
  calculate_midlines rot_seg_stack degree = Ret out ->
  labels rot_seg_stack <> [] /\
  animals out = animals rot_seg_stack /\
  wavelengths out = wavelengths rot_seg_stack /\
  pairs out = pairs rot_seg_stack /\
  forall a w p, (a < animals rot_seg_stack)%nat ->
                In w (wavelengths rot_seg_stack) -> In p (pairs rot_seg_stack) ->
    calculate_midline (frame rot_seg_stack a w p) 4 10 = Ret (frame out a w p) /\
    concat (frame rot_seg_stack a w p) <> [] /\
    (frame out a w p = None <->
     forall r c, pixel (frame rot_seg_stack a w p) r c = false).
Proof.
  intros Hcall. unfold calculate_midlines in Hcall.
  apply apply_ufunc1_frame in Hcall as (Hlabels & Ha & Hw & Hp & Hframes).
  repeat (split; [assumption|]). intros a w p Hla Hlw Hlp.
  specialize (Hframes a w p ltac:(apply in_labels; auto)).
  split; [exact Hframes|]. now apply calculate_midline_None in Hframes.
Qed.

End MidlineStacks.

(** X13 at a stack of one animal and two channels *)
Lemma calculate_midlines_frames_witness :
  let stack := one_animal two_channels (fun _ => single_pixel_mask 6 6 2 3) in
  let out := match @calculate_midlines plain_numerics stack 2 with
             | Ret out => out
             | Raise _ => one_animal [] (fun _ => None)
             end in
  wavelengths out = two_channels /\
  @calculate_midline plain_numerics (frame stack 0%nat "470"%string 0) 4 10
  = Ret (frame out 0%nat "470"%string 0).
Proof.
  intros stack out.
  destruct (@calculate_midlines_frames plain_numerics stack 2 out eq_refl)
    as (_ & _ & Hw & _ & Hframes).
  split; [exact Hw|].
  apply (Hframes 0%nat "470"%string 0);
    [cbn; lia | right; left; reflexivity | left; reflexivity].
Defined.

(** ** The transform of the pose normaliser *)

Lemma NoDup_flat_map {A B : Type} (f : A -> list B) (l : list A) :
  List.NoDup l -> (forall x, In x l -> List.NoDup (f x)) ->
  (forall x y b, In x l -> In y l -> In b (f x) -> In b (f y) -> x = y) ->
  List.NoDup (flat_map f l).
Proof.
  induction 1 as [|x l Hx Hl IH]; intros Hf Hdisj; cbn [flat_map]; [constructor|].
  apply List.NoDup_app.
  - apply Hf. now left.
  - apply IH; [intros y Hy; apply Hf; now right|].
    intros y z b Hy Hz. apply Hdisj; now right.
  - intros b Hb Hb'. apply in_flat_map in Hb' as (y & Hy & Hby).
    assert (x = y) by (apply (Hdisj x y b); auto with datatypes). congruence.
Qed.

(** Distinct wavelengths and pairs give distinct labels *)
Lemma labels_NoDup {A : Type} (d : DataArray A) :
  List.NoDup (wavelengths d) -> List.NoDup (pairs d) -> List.NoDup (labels d).
Proof.
  intros Hw Hp. unfold labels. apply NoDup_flat_map.
  - apply List.seq_NoDup.
  - intros a _. apply NoDup_flat_map; [exact Hw | |].
    + intros w _. apply List.NoDup_map_NoDup_ForallPairs; [|exact Hp].
      intros p p' _ _ [= ->]. reflexivity.
    + intros w w' b _ _ Hb Hb'.
      apply in_map_iff in Hb as (p & <- & _).
      apply in_map_iff in Hb' as (p' & [= -> _] & _). reflexivity.
  - intros a a' b _ _ Hb Hb'.
    apply in_flat_map in Hb as (w & _ & Hb). apply in_map_iff in Hb as (p & <- & _).
    apply in_flat_map in Hb' as (w' & _ & Hb').
    apply in_map_iff in Hb' as (p' & [= -> _ _] & _). reflexivity.
Qed.

Lemma set_frame_same {A : Type} (d : DataArray A) (a : nat) (w : string) (p : Z)
    (v : A) :
  frame (set_frame d a w p v) a w p = v.
Proof.
  cbn. now rewrite Nat.eqb_refl, String.eqb_refl, Z.eqb_refl.
Qed.

Lemma set_frame_other {A : Type} (d : DataArray A) (a a' : nat) (w w' : string)
    (p p' : Z) (v : A) :
  (a', w', p') <> (a, w, p) ->
  frame (set_frame d a w p v) a' w' p' = frame d a' w' p'.
Proof.
  intros Hne. cbn.
  destruct (Nat.eqb_spec a' a) as [->|]; [|reflexivity].
  destruct (String.eqb_spec w' w) as [->|]; [|reflexivity].
  destruct (Z.eqb_spec p' p) as [->|]; [|reflexivity].
  congruence.
Qed.

Lemma sel_value {A : Type} (d : DataArray A) (a : nat) (w : string) (p : Z) (v : A) :
  sel d a w p = Ret v -> v = frame d a w p.
Proof.
  unfold sel. repeat (destruct (negb _); [discriminate|]). now intros [= <-].
Qed.

Section PoseTransform.
Context `{Numerics}.

(** What one turn of the loop that returns has done to the two stacks *)
Lemma center_and_rotate_frame_Ret (fl_images : DataArray image)
    (seg_images : DataArray mask) (reference_wavelength : string) (cy cx : Z)
    (a : nat) (w : string) (p : Z) (st st' : DataArray image * DataArray mask) :
  center_and_rotate_frame fl_images seg_images reference_wavelength cy cx (a, w, p) st
  = Ret st' ->
  exists rp,
    first_region (frame seg_images a reference_wavelength p) = Some rp /\
    let tform := reference_translation cy cx
                   (frame seg_images a reference_wavelength p) in
    st' = (set_frame (fst st) a w p
             (rotate (frame fl_images a w p) tform (orientation rp) 1),
           set_frame (snd st) a w p
             (rotate (frame (snd st) a w p) tform (orientation rp) 0)).
Proof.
  destruct st as [fl' seg']. unfold center_and_rotate_frame.
  destruct (sel seg_images a reference_wavelength p) as [rs|] eqn:Hrs; [|discriminate].
  destruct (sel fl_images a w p) as [img|] eqn:Himg; [|discriminate].
  destruct (sel seg' a w p) as [seg|] eqn:Hseg; [|discriminate].
  apply sel_value in Hrs, Himg, Hseg. subst rs img seg. cbn [obind].
  unfold regionprops_0.
  destruct (concat (frame seg_images a reference_wavelength p));
    [cbn; discriminate|].
  destruct (first_region (frame seg_images a reference_wavelength p)) as [rp|];
    [|discriminate].
  cbn. intros [= <-]. exists rp. split; reflexivity.
Qed.

Lemma center_and_rotate_loop (fl_images : DataArray image)
    (seg_images : DataArray mask) (reference_wavelength : string) (cy cx : Z)
    (l : list (nat * string * Z)) (st st' : DataArray image * DataArray mask) :
  List.NoDup l ->
  for_each l
    (center_and_rotate_frame fl_images seg_images reference_wavelength cy cx) st
  = Ret st' ->
  (forall a w p, ~ In (a, w, p) l ->
     frame (fst st') a w p = frame (fst st) a w p /\
     frame (snd st') a w p = frame (snd st) a w p) /\
  (forall a w p, In (a, w, p) l ->
     exists rp,
       first_region (frame seg_images a reference_wavelength p) = Some rp /\
       let tform := reference_translation cy cx
                      (frame seg_images a reference_wavelength p) in
       frame (fst st') a w p
       = rotate (frame fl_images a w p) tform (orientation rp) 1 /\
       frame (snd st') a w p
       = rotate (frame (snd st) a w p) tform (orientation rp) 0).
Proof.
  intros Hnodup. revert st.
  induction Hnodup as [|[[a0 w0] p0] l Hnotin _ IH]; intros st; cbn [for_each].
  - intros [= <-]. split; [auto | intros a w p []].
  - destruct (center_and_rotate_frame _ _ _ _ _ _ st) as [st1|] eqn:Hstep;
      [|discriminate].
    cbn [obind]. intros Hloop.
    destruct (center_and_rotate_frame_Ret _ _ _ _ _ _ _ _ _ _ Hstep)
      as (rp0 & Hrp0 & Hst1).
    destruct (IH st1 Hloop) as [Hout Hin]. cbv zeta in Hst1. subst st1.
    cbn [fst snd] in Hout, Hin. split.
    + intros a w p Hnot.
      assert (Hne : (a, w, p) <> (a0, w0, p0)) by (intros Heq; apply Hnot; now left).
      destruct (Hout a w p) as [Hfl Hseg]; [intros Hl; apply Hnot; now right|].
      rewrite Hfl, Hseg, !set_frame_other by exact Hne. auto.
    + intros a w p [[= <- <- <-]|Hl].
      * destruct (Hout a0 w0 p0 Hnotin) as [Hfl Hseg].
        exists rp0. split; [exact Hrp0|]. cbv zeta.
        now rewrite Hfl, Hseg, !set_frame_same.
      * assert (Hne : (a, w, p) <> (a0, w0, p0)) by congruence.
        destruct (Hin a w p Hl) as (rp & Hrp & Hfl & Hseg).
        exists rp. split; [exact Hrp|]. cbv zeta in *.
        now rewrite Hfl, Hseg, set_frame_other by exact Hne.
Qed.

(** X14: when [center_and_rotate_pharynxes] returns, on stacks whose
    wavelengths and pairs are distinct labels, every frame of the two output
    stacks is the frame of the input stack at the same label under the one
    transform of its animal and pair: the translation and the orientation
    read off the reference mask of that animal and pair, the same for all
    wavelengths; the fluorescence frame is resampled with order 1 and the
    mask frame with order 0 *)
Theorem center_and_rotate_pharynxes_transform (fl_images : DataArray image)
    (seg_images : DataArray mask) (reference_wavelength : string)
    (fl_rotated : DataArray image) (seg_rotated : DataArray mask) :
  List.NoDup (wavelengths fl_images) -> List.NoDup (pairs fl_images) ->
  center_and_rotate_pharynxes fl_images seg_images reference_wavelength
  = Ret (fl_rotated, seg_rotated) ->
  forall a w p, (a < animals fl_images)%nat -> In w (wavelengths fl_images) ->
                In p (pairs fl_images) ->
    exists rp,
      first_region (frame seg_images a reference_wavelength p) = Some rp /\
      let tform := reference_translation (Z.of_nat (y_size fl_images) / 2)
                     (Z.of_nat (x_size fl_images) / 2)
                     (frame seg_images a reference_wavelength p) in
      frame fl_rotated a w p
      = rotate (frame fl_images a w p) tform (orientation rp) 1 /\
      frame seg_rotated a w p
      = rotate (frame seg_images a w p) tform (orientation rp) 0.
Proof.
  intros Hw Hp Hcall a w p Ha Hinw Hinp. unfold center_and_rotate_pharynxes in Hcall.
  destruct (center_and_rotate_loop _ _ _ _ _ _ _ _ (labels_NoDup fl_images Hw Hp) Hcall)
    as [_ Hin].
  apply (Hin a w p). apply in_labels. auto.
Qed.

End PoseTransform.

(** X14 at a stack of one animal, one pair and two channels *)
Lemma center_and_rotate_pharynxes_transform_witness :
  let fl := one_animal two_channels (fun _ => ramp 6 6) in
  let seg := one_animal two_channels (fun _ => single_pixel_mask 6 6 2 3) in
  let out := match @center_and_rotate_pharynxes plain_numerics fl seg "410" with
             | Ret out => out
             | Raise _ => (fl, seg)
             end in
  exists rp,
    first_region (frame seg 0%nat "410"%string 0) = Some rp /\
    frame (fst out) 0%nat "470"%string 0
    = @rotate plain_numerics float (frame fl 0%nat "470"%string 0)
        (reference_translation 3 3 (frame seg 0%nat "410"%string 0))
        (@orientation plain_numerics rp) 1.
Proof.
  intros fl seg out.
  destruct (@center_and_rotate_pharynxes_transform plain_numerics fl seg "410"
              (fst out) (snd out)
              ltac:(repeat constructor; cbn; intuition discriminate)
              ltac:(repeat constructor; cbn; intuition discriminate)
              eq_refl 0%nat "470"%string 0
              ltac:(cbn; lia) (or_intror (or_introl eq_refl)) (or_introl eq_refl))
    as (rp & Hrp & Hfl & _).
  exists rp. split; [exact Hrp | exact Hfl].
Defined.

(** ** The largest object of a mask *)

Lemma map_length_imap {A B : Type} (f : nat -> list A -> list B) (m : list (list A)) :
  (forall r row, length (f r row) = length row) ->
  map length (imap f m) = map length m.
Proof.
  revert f. induction m as [|row m IH]; intros f Hf; [reflexivity|].
  cbn. rewrite Hf. f_equal. apply IH. intros r row'. apply Hf.
Qed.

Lemma region_mask_shape (m : mask) (comp : list (nat * nat)) :
  map length (region_mask m comp) = map length m.
Proof.
  unfold region_mask. apply map_length_imap. intros r row. apply length_imap.
Qed.

Lemma pixel_lookup (m : list (list bool)) (r c : nat) :
  pixel m r c = true <-> exists row, m !! r = Some row /\ row !! c = Some true.
Proof.
  unfold pixel. rewrite !nth_lookup. split.
  - destruct (m !! r) as [row|].
    + change (default [] (Some row)) with row.
      destruct (row !! c) as [b|] eqn:Hc.
      * change (default false (Some b)) with b. intros ->. eauto.
      * change (default false None) with false. discriminate.
    + change (default [] None) with (@nil bool). rewrite lookup_nil.
      change (default false None) with false. discriminate.
  - intros (row & -> & Hc). change (default [] (Some row)) with row. now rewrite Hc.
Qed.

Lemma pixel_region_mask (m : list (list bool)) (comp : list (nat * nat)) (r c : nat) :
  pixel (region_mask m comp) r c = true <->
  in_region comp (r, c) = true /\
  exists row b, m !! r = Some row /\ row !! c = Some b.
Proof.
  rewrite pixel_lookup. unfold region_mask. split.
  - intros (row' & Hrow' & Hc). rewrite list_lookup_imap in Hrow'.
    destruct (m !! r) as [row|]; [|discriminate]. injection Hrow' as <-.
    rewrite list_lookup_imap in Hc.
    destruct (row !! c) as [b|] eqn:Hb; [|discriminate]. injection Hc as Hc.
    eauto.
  - intros (Hin & row & b & Hrow & Hb). eexists. rewrite list_lookup_imap, Hrow.
    split; [reflexivity|]. rewrite list_lookup_imap, Hb. cbn. now rewrite Hin.
Qed.

Lemma in_concat_imap {A B : Type} (f : nat -> A -> list B) (l : list A) (x : B) :
  In x (concat (imap f l)) -> exists j a, l !! j = Some a /\ In x (f j a).
Proof.
  revert f. induction l as [|a l IH]; intros f; cbn; [intros []|].
  intros Hx. apply in_app_or in Hx as [Hx|Hx].
  - exists 0%nat, a. auto.
  - destruct (IH _ Hx) as (j & b & Hj & Hb). exists (Datatypes.S j), b. auto.
Qed.

Lemma foreground_pixel (m : mask) (r c : nat) :
  In (r, c) (foreground m) -> pixel m r c = true.
Proof.
  intros Hin. apply in_concat_imap in Hin as (j & row & Hrow & Hin).
  unfold row_foreground in Hin. apply in_map_iff in Hin as (c' & [= <- <-] & Hc).
  apply filter_In in Hc as [_ Hc]. unfold pixel.
  now rewrite (nth_lookup_Some m j [] row Hrow).
Qed.

Lemma in_region_In (comp : list (nat * nat)) (q : nat * nat) :
  in_region comp q = true <-> In q comp.
Proof.
  unfold in_region. rewrite existsb_exists. split.
  - intros (q' & Hq' & Heq). apply pix_eqb_eq in Heq. now subst.
  - intros Hq. exists q. split; [exact Hq | apply pix_eqb_refl].
Qed.

(** The regions of a labelling are made of foreground pixels, and none of
    them is empty *)
Lemma components_sound (fuel : nat) (fg : list (nat * nat)) (comp : list (nat * nat)) :
  In comp (components fuel fg) ->
  comp <> [] /\ forall q, In q comp -> In q fg.
Proof.
  revert fg. induction fuel as [|fuel IH]; intros fg; [intros []|].
  destruct fg as [|q rest]; [intros []|]. cbn [components].
  remember (List.filter (in_region (flood (length rest) [q] rest)) (q :: rest))
    as first eqn:Hfirst.
  intros [<-|Hin].
  - assert (Hq : In q first).
    { rewrite Hfirst. apply filter_In. split; [now left|].
      apply in_region_In, flood_keeps. now left. }
    split; [intros ->; destruct Hq|].
    intros q' Hq'. rewrite Hfirst in Hq'. apply filter_In in Hq'. tauto.
  - destruct (IH _ Hin) as [Hne Hsub]. split; [exact Hne|].
    intros q' Hq'. right. specialize (Hsub q' Hq'). apply filter_In in Hsub. tauto.
Qed.

Lemma argmax_from_spec (l : list nat) (pre : list nat) (best_i best : nat) :
  (best_i < length pre)%nat -> nth best_i pre 0%nat = best ->
  (forall x, In x pre -> (x <= best)%nat) ->
  let k := argmax_from best_i best (length pre) l in
  (k < length (pre ++ l))%nat /\
  forall x, In x (pre ++ l) -> (x <= nth k (pre ++ l) 0)%nat.
Proof.
  revert pre best_i best. induction l as [|y l IH]; intros pre best_i best Hi Hb Hpre.
  - cbn. rewrite app_nil_r. split; [exact Hi|]. intros x Hx. rewrite Hb. auto.
  - cbn [argmax_from]. replace (pre ++ y :: l) with ((pre ++ [y]) ++ l)
      by now rewrite <- app_assoc.
    replace (Datatypes.S (length pre)) with (length (pre ++ [y]))
      by (rewrite length_app; cbn; lia).
    destruct (Nat.ltb_spec best y) as [Hlt|Hge].
    + apply IH.
      * rewrite length_app. cbn. lia.
      * rewrite app_nth2 by lia. now rewrite Nat.sub_diag.
      * intros x Hx. apply in_app_or in Hx as [Hx|[<-|[]]]; [|lia].
        specialize (Hpre x Hx). lia.
    + apply IH.
      * rewrite length_app. cbn. lia.
      * now rewrite app_nth1 by exact Hi.
      * intros x Hx. apply in_app_or in Hx as [Hx|[<-|[]]]; [auto | lia].
Qed.

Lemma argmax_spec (l : list nat) :
  l <> [] ->
  (argmax l < length l)%nat /\
  forall x, In x l -> (x <= nth (argmax l) l 0)%nat.
Proof.
  destruct l as [|x l]; [congruence|]. intros _. unfold argmax.
  apply (argmax_from_spec l [x] 0 x); cbn; [lia | reflexivity |].
  intros y [<-|[]]. lia.
Qed.

(** X15: [extract_largest_binary_object] raises [ValueError] for an array
    without a single pixel.  For a mask with pixels it returns a mask of the
    same shape and takes no pixel into the foreground: every foreground pixel
    of the result is a foreground pixel of the input; a mask without
    foreground comes back as it is *)
Theorem extract_largest_binary_object_within (bin_img : mask) :
  (concat bin_img = [] -> extract_largest_binary_object bin_img = Raise ValueError) /\
  (concat bin_img <> [] ->
   exists out,
     extract_largest_binary_object bin_img = Ret out /\
     map length out = map length bin_img /\
     (forall r c, pixel out r c = true -> pixel bin_img r c = true) /\
     ((forall r c, pixel bin_img r c = false) -> out = bin_img)).
Proof.
  unfold extract_largest_binary_object.
  destruct (concat bin_img) as [|v rest]; split; try congruence. intros _.
  destruct (label_regions bin_img) as [|comp0 regions] eqn:Hregions.
  - exists bin_img. repeat split; auto.
  - set (k := argmax _).
    destruct (argmax_spec (map length (comp0 :: regions))) as [Hk _];
      [discriminate|].
    fold k in Hk. rewrite length_map in Hk.
    assert (Hchosen : In (nth k (comp0 :: regions) []) (label_regions bin_img))
      by (rewrite Hregions; now apply nth_In).
    destruct (components_sound _ _ _ Hchosen) as [_ Hsub].
    eexists. split; [reflexivity|]. split; [apply region_mask_shape|]. split.
    + intros r c Hpix. apply pixel_region_mask in Hpix as [Hin _].
      apply foreground_pixel, Hsub, in_region_In, Hin.
    + intros Hempty. unfold label_regions in Hregions.
      rewrite (foreground_nil bin_img Hempty) in Hregions. discriminate.
Qed.

(** X15 at a row of two background pixels *)
Lemma extract_largest_binary_object_within_witness :
  exists out,
    extract_largest_binary_object [[false; false]] = Ret out /\
    map length out = [2%nat].
Proof.
  destruct (proj2 (extract_largest_binary_object_within [[false; false]])
              ltac:(discriminate)) as (out & Hout & Hshape & _).
  exists out. split; [exact Hout | exact Hshape].
Defined.

(** X16: for a mask with foreground, [extract_largest_binary_object]
    returns, and the foreground of its result is one region of the labelling,
    not empty, and no region of the mask has more pixels than it *)
Theorem extract_largest_binary_object_largest (bin_img : mask) (r0 c0 : nat) :
  pixel bin_img r0 c0 = true ->
  exists out chosen,
    extract_largest_binary_object bin_img = Ret out /\
    In chosen (label_regions bin_img) /\ chosen <> [] /\
    (forall comp, In comp (label_regions bin_img) ->
                  (length comp <= length chosen)%nat) /\
    forall r c, pixel out r c = true <-> In (r, c) chosen.
Proof.
  intros Hpix. unfold extract_largest_binary_object.
  destruct (concat bin_img) as [|v rest] eqn:Hpixels.
  { rewrite (no_pixel_background bin_img Hpixels) in Hpix. discriminate. }
  destruct (label_regions bin_img) as [|comp0 regions] eqn:Hregions.
  - apply foreground_In in Hpix. unfold label_regions in Hregions.
    destruct (foreground bin_img) as [|q rest']; [destruct Hpix | discriminate].
  - set (k := argmax _).
    destruct (argmax_spec (map length (comp0 :: regions))) as [Hk Hmax];
      [discriminate|].
    fold k in Hk, Hmax. rewrite length_map in Hk.
    set (chosen := nth k (comp0 :: regions) []).
    assert (Hchosen : In chosen (label_regions bin_img))
      by (rewrite Hregions; now apply nth_In).
    destruct (components_sound _ _ _ Hchosen) as [Hne Hsub].
    eexists _, chosen. split; [reflexivity|].
    rewrite <- Hregions. split; [exact Hchosen|].
    split; [exact Hne|]. split.
    + intros comp Hcomp. rewrite Hregions in Hcomp.
      specialize (Hmax (length comp) (in_map length _ _ Hcomp)).
      change 0%nat with (length (@nil (nat * nat))) in Hmax.
      now rewrite map_nth in Hmax.
    + intros r c. rewrite pixel_region_mask, in_region_In. split; [tauto|].
      intros Hin. split; [exact Hin|].
      apply Hsub, foreground_pixel, pixel_lookup in Hin as (row & Hrow & Hc). eauto.
Qed.

(** X16 at a mask with an object of one pixel and an object of two *)
Lemma extract_largest_binary_object_largest_witness :
  exists out chosen,
    extract_largest_binary_object [[true; false; true; true]] = Ret out /\
    In chosen (label_regions [[true; false; true; true]]) /\
    forall comp, In comp (label_regions [[true; false; true; true]]) ->
                 (length comp <= length chosen)%nat.
Proof.
  destruct (extract_largest_binary_object_largest [[true; false; true; true]] 0 0
              eq_refl) as (out & chosen & Hout & Hin & _ & Hmax & _).
  exists out, chosen. split; [exact Hout|]. split; [exact Hin | exact Hmax].
Defined.

(** ** The segmentation of a stack *)

Section MidlineCover.
Context `{Numerics}.

(** X17: for a mask with a foreground object and a degree that is not
    negative, the domain [[lo, hi]] of the midline starts [pad] before the top
    row of the first object and ends [pad] after the column that follows its
    right-most column: every pixel [(row, col)] of the object has
    [lo + pad <= row] and [col < hi - pad].  When the two ends are different,
    [calculate_midline] returns a polynomial over that domain; when they
    meet, the fit fails and [calculate_midline] raises [LinAlgError] *)
Theorem calculate_midline_domain_covers (m : mask) (rp : region) (degree pad : Z) :
  first_region m = Some rp -> 0 <= degree ->
  let lo := Z.of_nat (list_min (hd 0%nat (map fst (coords rp)))
                               (map fst (coords rp))) - pad in
  let hi := Z.of_nat (Datatypes.S (list_max (map snd (coords rp)))) + pad in
  (lo <> hi ->
   exists poly,
     calculate_midline m degree pad = Ret (Some poly) /\
     domain poly = (Float64.of_Z lo, Float64.of_Z hi)) /\
  (lo = hi -> calculate_midline m degree pad = Raise LinAlgError) /\
  forall row col, In (row, col) (coords rp) ->
    lo + pad <= Z.of_nat row /\ Z.of_nat col < hi - pad.
Proof.
  intros Hrp Hdeg lo hi.
  destruct (calculate_midline_domain m rp degree pad Hrp Hdeg) as [Hmeet Hapart].
  split; [exact Hapart|]. split; [exact Hmeet|].
  intros row col Hin.
  assert (Hrow : In row (map fst (coords rp)))
    by (apply in_map_iff; exists (row, col); auto).
  assert (Hcol : In col (map snd (coords rp)))
    by (apply in_map_iff; exists (row, col); auto).
  pose proof (list_min_le (hd 0%nat (map fst (coords rp))) _ _ Hrow).
  pose proof (list_max_ge _ _ Hcol). subst lo hi. lia.
Qed.

End MidlineCover.

(** X17 at the mask of 8 by 8 pixels with the one pixel of row 5, column 2,
    and at the mask of 30 by 30 pixels with the one pixel of row 25, column 4,
    where the domain is [[15, 15]] *)
Lemma calculate_midline_domain_covers_witness :
  (exists poly,
     @calculate_midline plain_numerics (single_pixel_mask 8 8 5 2) 4 10
     = Ret (Some poly) /\
     domain poly = (Float64.of_Z (-5), Float64.of_Z 13)) /\
  @calculate_midline plain_numerics (single_pixel_mask 30 30 25 4) 4 10
  = Raise LinAlgError.
Proof.
  split.
  - apply (proj1 (@calculate_midline_domain_covers plain_numerics
                    (single_pixel_mask 8 8 5 2)
                    {| coords := [(5%nat, 2%nat)] |} 4 10 eq_refl ltac:(lia))).
    discriminate.
  - apply (proj1 (proj2 (@calculate_midline_domain_covers plain_numerics
                           (single_pixel_mask 30 30 25 4)
                           {| coords := [(25%nat, 4%nat)] |} 4 10 eq_refl ltac:(lia)))).
    reflexivity.
Defined.

(** The outcomes of [extract_largest_binary_object], by the pixels *)
Lemma extract_largest_cases (bin_img : mask) :
  match concat bin_img with
  | [] => extract_largest_binary_object bin_img = Raise ValueError
  | _ :: _ =>
      exists out, extract_largest_binary_object bin_img = Ret out /\
                  map length out = map length bin_img
  end.
Proof.
  unfold extract_largest_binary_object.
  destruct (concat bin_img); [reflexivity|].
  destruct (label_regions bin_img); eexists; (split; [reflexivity|]);
    [reflexivity | apply region_mask_shape].
Qed.

Lemma shape_no_pixels {A B : Type} (a : list (list A)) (b : list (list B)) :
  map length a = map length b -> concat a = [] -> concat b = [].
Proof.
  intros Hshape Ha. destruct (concat b) as [|x rest] eqn:Hb; [reflexivity|].
  destruct (shape_pixels b a); [now symmetry | now rewrite Hb | exact Ha].
Qed.

Lemma as_image_shape (m : mask) : map length (as_image m) = map length m.
Proof.
  unfold as_image. rewrite map_map. apply map_ext. intros row. apply length_map.
Qed.

Lemma as_image_binary (m : mask) :
  Forall (Forall (fun v => v = Float64.zero \/ v = Float64.of_Z 1)) (as_image m).
Proof.
  unfold as_image. apply List.Forall_forall. intros row Hrow.
  apply in_map_iff in Hrow as (row' & <- & _).
  apply List.Forall_forall. intros v Hv.
  apply in_map_iff in Hv as (b & <- & _). destruct b; auto.
Qed.

(** The three ways [segment_pharynx] goes *)
Lemma segment_pharynx_cases (fl_img : FlImage) :
  (contains "tl" (lower (wavelength fl_img)) = true /\
   segment_pharynx fl_img
   = Some (Ret (ZeroedCopy (map (map (fun _ => Float64.zero)) (data fl_img)), 0))) \/
  (contains "tl" (lower (wavelength fl_img)) = false /\
   concat (data fl_img) = [] /\
   segment_pharynx fl_img = Some (Raise ValueError)) \/
  (contains "tl" (lower (wavelength fl_img)) = false /\
   concat (data fl_img) <> [] /\
   exists m n, segment_pharynx fl_img = Some (Ret (Thresholded m, n)) /\
               map length m = map length (data fl_img)).
Proof.
  unfold segment_pharynx, segment_pharynx_fuel.
  destruct (contains "tl" (lower (wavelength fl_img))); [left; auto|].
  right. unfold img_max.
  destruct (concat (data fl_img)) as [|v rest] eqn:Hdata; [left; auto|].
  right. split; [reflexivity|]. split; [discriminate|].
  set (mx := fold_left _ rest v).
  destruct (get_area_of_largest_object_returns
              (threshold (data fl_img) (Float64.mul mx (Float64.ratio 15 100))))
    as [area0 ->].
  { apply (shape_pixels (data fl_img)); [now rewrite threshold_shape|].
    now rewrite Hdata. }
  set (st0 := {| p := _; S := _; cur_area := _; i := 0 |}).
  destruct (search_loop_returns (data fl_img) mx (Datatypes.S (Z.to_nat max_iter)) st0)
    as (m & n & -> & Hm & _).
  - now rewrite Hdata.
  - apply threshold_shape.
  - cbn. unfold max_iter. lia.
  - cbn. unfold max_iter. lia.
  - eauto.
Qed.

(** One frame: it raises for a frame without a pixel, in the maximum of the
    image or, under a wavelength that names transmitted light, in the maximum
    of the labels of the zeroed copy; it returns an image of 0 and 1 of the
    shape of the frame otherwise *)
Lemma segment_frame_cases (w : string) (img : image) :
  match concat img with
  | [] => segment_frame w img = Raise ValueError
  | _ :: _ =>
      exists S, segment_frame w img = Ret S /\
                map length S = map length img /\
                Forall (Forall (fun v => v = Float64.zero \/ v = Float64.of_Z 1)) S
  end.
Proof.
  unfold segment_frame.
  destruct (segment_pharynx_cases {| wavelength := w; data := img |})
    as [(Htl & ->)|[(Htl & Hempty & ->)|(Htl & Hne & m & n & -> & Hm)]];
    cbn [wavelength data] in *.
  - set (background := map (map (fun _ => false)) _).
    assert (Hshape : map length background = map length img).
    { unfold background. rewrite !map_map. apply map_ext. intros row.
      now rewrite !length_map. }
    pose proof (extract_largest_cases background) as Hcases.
    destruct (concat img) as [|v rest] eqn:Himg.
    + rewrite (shape_no_pixels img background) in Hcases by auto.
      now rewrite Hcases.
    + destruct (concat background) eqn:Hback.
      * destruct (shape_pixels img background); [auto | now rewrite Himg | exact Hback].
      * destruct Hcases as (out & -> & _). cbn [obind].
        eexists. split; [reflexivity|]. split.
        -- rewrite map_map. apply map_ext. intros row. apply length_map.
        -- apply (zeroed_copy_binary img).
  - now rewrite Hempty.
  - pose proof (extract_largest_cases m) as Hcases.
    destruct (concat m) eqn:Hmask.
    { destruct (shape_pixels img m); [auto | exact Hne | exact Hmask]. }
    destruct Hcases as (out & -> & Hout). cbn [obind].
    destruct (concat img); [congruence|].
    eexists. split; [reflexivity|]. split; [|apply as_image_binary].
    now rewrite as_image_shape, Hout.
Qed.

Lemma segment_pharynxes_frame_classify (fl_stack : DataArray image)
    (lbl : nat * string * Z) (seg : DataArray image) :
  match segment_error fl_stack lbl with
  | Some e => segment_pharynxes_frame fl_stack lbl seg = Raise e
  | None => exists seg', segment_pharynxes_frame fl_stack lbl seg = Ret seg' /\ True
  end.
Proof.
  destruct lbl as [[a w] p]. unfold segment_error, segment_pharynxes_frame.
  destruct (String.eqb (lower w) "tl"); [eauto|].
  pose proof (segment_frame_cases w (frame fl_stack a w p)) as Hcases.
  destruct (concat (frame fl_stack a w p)).
  - now rewrite Hcases.
  - destruct Hcases as (S & -> & _). cbn [obind]. eauto.
Qed.

(** X18: [segment_pharynxes] raises exactly when some frame has no pixel
    under a wavelength other than "tl", whatever the case of the letters: the
    frames of "tl" are passed over, and every other frame without a pixel
    fails, in the maximum of the image or, for a wavelength that contains
    "tl", in the maximum of the labels of its zeroed copy; the exception is
    always [ValueError] *)
Theorem segment_pharynxes_raises (fl_stack : DataArray image) (threshold : Z) :
  ((exists a w p, (a < animals fl_stack)%nat /\ In w (wavelengths fl_stack) /\
                  In p (pairs fl_stack) /\
                  String.eqb (lower w) "tl" = false /\
                  concat (frame fl_stack a w p) = [])
   <-> segment_pharynxes fl_stack threshold = Raise ValueError) /\
  (forall e, segment_pharynxes fl_stack threshold = Raise e -> e = ValueError).
Proof.
  unfold segment_pharynxes.
  pose proof (for_each_classify (segment_pharynxes_frame fl_stack) (fun _ => True)
                (segment_error fl_stack) (labels fl_stack)
                (fun lbl seg _ _ => segment_pharynxes_frame_classify fl_stack lbl seg)
                fl_stack I) as Hloop.
  destruct (first_error (segment_error fl_stack) (labels fl_stack)) as [e|] eqn:Hfirst.
  - destruct (first_error_Some _ _ _ Hfirst) as ([[a w] p] & Hin & Hbad).
    apply in_labels in Hin as (Ha & Hw & Hp). unfold segment_error in Hbad.
    destruct (String.eqb (lower w) "tl") eqn:Htl; [discriminate|].
    destruct (concat (frame fl_stack a w p)) eqn:Hempty; [|discriminate].
    injection Hbad as <-. rewrite Hloop.
    split; [split; [reflexivity|] | now intros e [= <-]].
    intros _. exists a, w, p. auto.
  - destruct Hloop as (seg' & -> & _).
    split; [split; [|discriminate] | discriminate].
    intros (a & w & p & Ha & Hw & Hp & Htl & Hempty).
    pose proof (first_error_None _ _ Hfirst (a, w, p)) as Hnone.
    unfold segment_error in Hnone. rewrite Htl, Hempty in Hnone.
    discriminate Hnone. apply in_labels. auto.
Qed.

Lemma segment_pharynxes_loop (fl_stack : DataArray image)
    (l : list (nat * string * Z)) (seg seg' : DataArray image) :
  for_each l (segment_pharynxes_frame fl_stack) seg = Ret seg' ->
  forall a w p,
    (In (a, w, p) l -> String.eqb (lower w) "tl" = false ->
     segment_frame w (frame fl_stack a w p) = Ret (frame seg' a w p)) /\
    ((~ In (a, w, p) l \/ String.eqb (lower w) "tl" = true) ->
     frame seg' a w p = frame seg a w p).
Proof.
  revert seg. induction l as [|[[a0 w0] p0] l IH]; intros seg; cbn [for_each].
  - intros [= <-] a w p. split; [intros [] | reflexivity].
  - destruct (segment_pharynxes_frame fl_stack (a0, w0, p0) seg) as [seg1|] eqn:Hstep;
      [|discriminate].
    cbn [obind]. intros Hloop a w p. destruct (IH seg1 Hloop a w p) as [Hin Hout].
    unfold segment_pharynxes_frame in Hstep.
    destruct (String.eqb (lower w0) "tl") eqn:Htl0.
    + injection Hstep as <-. split.
      * intros [[= <- <- <-]|Hl] Hw; [congruence | auto].
      * intros [Hnot|Htl]; apply Hout; [left; intros Hl; apply Hnot; now right | auto].
    + destruct (segment_frame w0 (frame fl_stack a0 w0 p0)) as [S0|] eqn:Hframe;
        [|discriminate].
      cbn [obind] in Hstep. injection Hstep as <-.
      assert (Hdec : In (a, w, p) l \/ ~ In (a, w, p) l).
      { destruct (decide ((a, w, p) ∈ l)) as [Hl|Hl];
          rewrite list_elem_of_In in Hl; auto. }
      destruct Hdec as [Hl|Hl].
      * split; [auto|]. intros [Hnot|Htl]; [destruct Hnot; now right|].
        rewrite (Hout (or_intror Htl)). apply set_frame_other.
        intros [= -> -> ->]. congruence.
      * split.
        -- intros [[= <- <- <-]|Hl'] _; [|contradiction].
           rewrite (Hout (or_introl Hl)), set_frame_same. exact Hframe.
        -- intros [Hnot|Htl].
           ++ rewrite (Hout (or_introl Hl)). apply set_frame_other.
              intros Heq. apply Hnot. left. now symmetry.
           ++ rewrite (Hout (or_introl Hl)). apply set_frame_other.
              intros [= -> -> ->]. congruence.
Qed.

(** X19: in the stack [segment_pharynxes] returns, the frames of a
    wavelength that is "tl", whatever the case of the letters, are the
    frames of the input, with their intensities: the loop passes them over;
    every other frame is an image of 0 and 1 of the shape of the frame of
    the input *)
Theorem segment_pharynxes_frames (fl_stack seg : DataArray image) (threshold : Z) :
  segment_pharynxes fl_stack threshold = Ret seg ->
  forall a w p, (a < animals fl_stack)%nat -> In w (wavelengths fl_stack) ->
                In p (pairs fl_stack) ->
    (String.eqb (lower w) "tl" = true -> frame seg a w p = frame fl_stack a w p) /\
    (String.eqb (lower w) "tl" = false ->
     map length (frame seg a w p) = map length (frame fl_stack a w p) /\
     Forall (Forall (fun v => v = Float64.zero \/ v = Float64.of_Z 1))
            (frame seg a w p)).
Proof.
  intros Hcall a w p Ha Hw Hp. unfold segment_pharynxes in Hcall.
  destruct (segment_pharynxes_loop fl_stack _ _ _ Hcall a w p) as [Hin Hout].
  split; [auto|]. intros Htl.
  specialize (Hin ltac:(apply in_labels; auto) Htl).
  pose proof (segment_frame_cases w (frame fl_stack a w p)) as Hcases.
  destruct (concat (frame fl_stack a w p)); [congruence|].
  destruct Hcases as (S & HS & Hshape & Hbin). rewrite Hin in HS.
  injection HS as <-. auto.
Qed.

(** X18 and X19 at stacks of one animal and one pair *)
Lemma segment_pharynxes_raises_witness :
  segment_pharynxes (one_animal ["TL"; "xtl"]%string (fun _ => [])) 2000
  = Raise ValueError.
Proof.
  apply (proj1 (proj1 (segment_pharynxes_raises
                         (one_animal ["TL"; "xtl"]%string (fun _ => [])) 2000))).
  exists 0%nat, "xtl"%string, 0.
  repeat split; [cbn; lia | right; left; reflexivity | left; reflexivity].
Defined.

Lemma segment_pharynxes_frames_witness :
  let fl := one_animal ["TL"; "410"]%string (fun _ => ramp 6 6) in
  let seg := match segment_pharynxes fl 2000 with
             | Ret seg => seg
             | Raise _ => fl
             end in
  frame seg 0%nat "TL"%string 0 = ramp 6 6.
Proof.
  intros fl seg.
  exact (proj1 (segment_pharynxes_frames fl seg 2000 eq_refl 0%nat "TL"%string 0
                  ltac:(cbn; lia) (or_introl eq_refl) (or_introl eq_refl)) eq_refl).
Defined.
